(** * process_behavior: customer behaviour to per-term churn observations

    A shallow embedding of [process_behavior] (src/process_behavior.py) and
    the properties of its pipeline: validation, cohort filter, zero-fill,
    periodisation on a shared monthly grid, active-period resolution, term
    segmentation, rolling statistics and the final pivot.

    Modelling conventions.
    - A pandas frame indexed by (client, period) is a list of blocks
      [(client, rows)], one block per client in index order;
      [groupby(level = 0)] works block by block.
    - A timestamp is its month number (what [astype('datetime64[M]')] and
      [pd.Grouper(freq = 'MS')] keep of it) and its offset inside that month.
      Only [time_unit = 'MS'] is modelled, as the docstring requires.
    - NaT / NaN is [None]; column names are the defaults of the signature.
    - The cumulated became / churn flags are integer counts, combined with
      the bitwise [&] and [~]; a row passes the mask when the result is
      non-zero.
    - Volumes are 64-bit integers: the grouped sum wraps around. The rolling
      column is IEEE 754 binary64, rounded to nearest even; the sum of a
      window is accumulated from its oldest value to its latest. *)

From Stdlib Require Import ZArith Lia SpecFloat.
From stdpp Require Import base option list sorting numbers strings.

Local Open Scope nat_scope.

(** ** Exceptions *)

Inductive exn : Type :=
  | ValueError
  | KeyError
  | TypeError
  | UnboundLocalError
  | AssertionError
  | NotImplementedError.

Definition result (A : Type) : Type := (exn + A)%type.

Definition raise {A : Type} (e : exn) : result A := inl e.

Definition bind {A B : Type} (c : result A) (k : A → result B) : result B :=
  match c with
  | inl e => inl e
  | inr a => k a
  end.

Notation "'let!' x ':=' c 'in' k" := (bind c (λ x, k))
  (at level 10, x name, c at level 100, k at level 200).

Definition succeeds {A : Type} (c : result A) : Prop := ∃ a, c = inr a.
Definition raises {A : Type} (c : result A) : Prop := ∃ e, c = inl e.

(** ** Machine numbers *)

(** Two's complement wrap-around of a 64-bit integer. *)
Definition int64 (z : Z) : Z := ((z + 2 ^ 63) mod 2 ^ 64 - 2 ^ 63)%Z.

Definition float64 : Type := spec_float.

Definition fzero : float64 := S754_zero false.

(** Conversion of an integer to binary64, as [astype(float)] does. *)
Definition float_of_int (z : Z) : float64 := binary_normalize 53 1024 z 0 false.

Definition fadd (x y : float64) : float64 := SFadd 53 1024 x y.
Definition fsub (x y : float64) : float64 := SFsub 53 1024 x y.
Definition fdiv (x y : float64) : float64 := SFdiv 53 1024 x y.

(** ** Input tables *)

Record timestamp : Type := Timestamp { ts_month : Z; ts_offset : Z }.

Definition ts_leb (a b : timestamp) : bool :=
  (ts_month a <? ts_month b)%Z
  || ((ts_month a =? ts_month b)%Z && (ts_offset a <=? ts_offset b)%Z).

Definition ts_ltb (a b : timestamp) : bool :=
  (ts_month a <? ts_month b)%Z
  || ((ts_month a =? ts_month b)%Z && (ts_offset a <? ts_offset b)%Z).

Definition ts_lt (a b : timestamp) : Prop :=
  (ts_month a < ts_month b)%Z
  ∨ (ts_month a = ts_month b ∧ ts_offset a < ts_offset b)%Z.

(** First day of the month [m], as a timestamp. *)
Definition month_start (m : Z) : timestamp := Timestamp m 0.

(** [Timestamp.month], 1 to 12. *)
Definition calendar_month (m : Z) : Z := (m mod 12 + 1)%Z.

Definition dict (V : Type) : Type := list (string * V).

Fixpoint dict_get {V : Type} (k : string) (d : dict V) : option V :=
  match d with
  | [] => None
  | (k', v) :: d' => if decide (k' = k) then Some v else dict_get k d'
  end.

Definition dict_keys {V : Type} (d : dict V) : list string := d.*1.

(** One row of [demgeo_df]; [cohort] holds the cells of the other columns. *)
Record customer : Type := Customer {
  bridge_company_id : Z;
  became_customer_date : timestamp;
  churn_date : option timestamp;
  cohort : dict string
}.

Record demgeo : Type := Demgeo {
  dg_columns : list string;
  dg_rows : list customer
}.

(** One row of [behavior_df]. *)
Record event : Type := Event {
  ev_client : Z;
  days : timestamp;
  total_issues : Z
}.

Inductive pyflag : Type :=
  | PyBool (b : bool)
  | PyInt (n : Z).

Definition truthy (f : pyflag) : bool :=
  match f with
  | PyBool b => b
  | PyInt n => negb (n =? 0)%Z
  end.

(** ** Consistency check (lines 105-107) *)

Definition churn_notnull (c : customer) : Prop := is_Some (churn_date c).

Definition churn_ge_became (c : customer) : bool :=
  match churn_date c with
  | Some ch => ts_leb (became_customer_date c) ch
  | None => false
  end.

Definition consistency_check (demgeo_df : demgeo) : bool :=
  forallb churn_ge_became (filter churn_notnull (dg_rows demgeo_df)).

(** ** Cohort filter (lines 110-122) *)

Definition demgeo_df_listtokeep (filter_rows : option (dict string)) : list string :=
  match filter_rows with
  | Some d => dict_keys d
  | None => []
  end.

Definition keep_cells (keep : list string) (c : customer) : customer :=
  Customer (bridge_company_id c) (became_customer_date c) (churn_date c)
           (filter (λ kv, kv.1 ∈ keep) (cohort c)).

Definition select_columns (keep : list string) (df : demgeo) : result demgeo :=
  if decide (Forall (λ k, k ∈ dg_columns df) keep)
  then inr (Demgeo keep (keep_cells keep <$> dg_rows df))
  else raise KeyError.

Definition drop_cell (col : string) (c : customer) : customer :=
  Customer (bridge_company_id c) (became_customer_date c) (churn_date c)
           (filter (λ kv, kv.1 ≠ col) (cohort c)).

Definition filter_step (df : demgeo) (kv : string * string) : demgeo :=
  Demgeo (filter (λ k, k ≠ kv.1) (dg_columns df))
         (drop_cell kv.1 <$> filter (λ c, dict_get kv.1 (cohort c) = Some kv.2) (dg_rows df)).

Definition apply_filter_rows (filter_rows : option (dict string)) (df : demgeo)
  : result demgeo :=
  match filter_rows with
  | None => raise TypeError
  | Some d => inr (foldl filter_step df d)
  end.

Definition client_ids (rows : list customer) : list Z := bridge_company_id <$> rows.

Definition restrict_behavior (rows : list customer) (behavior_df : list event)
  : list event :=
  filter (λ e, ev_client e ∈ client_ids rows) behavior_df.

(** ** Zero-fill of clients without behaviour (lines 126-130) *)

Definition ids_no_behavior (rows : list customer) (behavior_df : list event)
  : list event :=
  (λ c, Event (bridge_company_id c) (became_customer_date c) 0%Z)
    <$> filter (λ c, bridge_company_id c ∈
                       list_difference (client_ids rows) (ev_client <$> behavior_df))
               rows.

(** ** Periodizer (lines 134-146) *)

Definition sorted_unique (l : list Z) : list Z := merge_sort Z.le (remove_dups l).

(** [sum] of the flags of one term (line 214), a count of at most [term]
    cells. *)
Definition sum_Z (l : list Z) : Z := foldr Z.add 0%Z l.

(** [.sum()] of an int64 column: the accumulator wraps around. *)
Definition sum_int64 (l : list Z) : Z := foldl (λ acc v, int64 (acc + v)) 0%Z l.

Definition event_month (e : event) : Z := ts_month (days e).

(** [groupby([client_id, period_grouper])[volume].sum()]: per client, the
    observed months in order, each with the summed volume. *)
Definition monthly_sums (evs : list event) : list (Z * Z) :=
  (λ m, (m, sum_int64 (total_issues <$> filter (λ e, event_month e = m) evs)))
    <$> sorted_unique (event_month <$> evs).

Definition groupby_sum (behavior_df : list event) : list (Z * list (Z * Z)) :=
  (λ i, (i, monthly_sums (filter (λ e, ev_client e = i) behavior_df)))
    <$> sorted_unique (ev_client <$> behavior_df).

Definition level_dates {V : Type} (frame : list (Z * list (Z * V))) : list Z :=
  frame ≫= λ blk, blk.2.*1.

Definition date_min (l : list Z) : option Z :=
  match l with
  | [] => None
  | x :: r => Some (foldl Z.min x r)
  end.

Definition date_max (l : list Z) : option Z :=
  match l with
  | [] => None
  | x :: r => Some (foldl Z.max x r)
  end.

(** [pd.date_range(start, end, freq = 'MS')]; NaT bounds are rejected. *)
Definition pd_date_range (start stop : option Z) : result (list Z) :=
  match start, stop with
  | Some a, Some b => inr ((λ k, (a + Z.of_nat k)%Z) <$> seq 0 (Z.to_nat (b - a + 1)))
  | _, _ => raise ValueError
  end.

Fixpoint cell_get (m : Z) (cells : list (Z * Z)) : option Z :=
  match cells with
  | [] => None
  | (m', v) :: r => if decide (m' = m) then Some v else cell_get m r
  end.

Definition reindex_last_level (date_range : list Z) (cells : list (Z * Z))
  : list (Z * Z) :=
  (λ p, (p, default 0%Z (cell_get p cells))) <$> date_range.

Definition reindex (date_range : list Z) (frame : list (Z * list (Z * Z)))
  : list (Z * list (Z * Z)) :=
  (λ blk, (blk.1, reindex_last_level date_range blk.2)) <$> frame.

(** ** Join and active periods (lines 153-172) *)

Record joined_row : Type := JoinedRow {
  j_date : Z;
  j_volume : Z;
  j_became : timestamp;
  j_churn : option timestamp
}.

(** Every client of the frame occurs in [demgeo_df] (lines 122 and 126), so
    the left join leaves no row unmatched. *)
Definition left_join (rows : list customer) (frame : list (Z * list (Z * Z)))
  : list (Z * list joined_row) :=
  (λ blk, (blk.1,
           blk.2 ≫= λ cell,
             (λ c, JoinedRow cell.1 cell.2 (became_customer_date c) (churn_date c))
               <$> filter (λ c, bridge_company_id c = blk.1) rows))
    <$> frame.

(** [behavior_df.join(demgeo_df.set_index('bridge_company_id'))]: joining the
    two-level index of the frame on one of its levels needs the client ids of
    [demgeo_df] to be distinct; pandas raises [NotImplementedError]
    otherwise. *)
Definition join_demgeo (rows : list customer) (frame : list (Z * list (Z * Z)))
  : result (list (Z * list joined_row)) :=
  if bool_decide (NoDup (client_ids rows))
  then inr (left_join rows frame)
  else raise NotImplementedError.

Definition eq_period (col : option Z) (p : Z) : bool :=
  match col with
  | Some m => bool_decide (m = p)
  | None => false
  end.

Fixpoint cumsum_from (acc : Z) (l : list bool) : list Z :=
  match l with
  | [] => []
  | b :: r => (acc + Z.b2z b)%Z :: cumsum_from (acc + Z.b2z b)%Z r
  end.

Definition cumsum (l : list bool) : list Z := cumsum_from 0%Z l.

Definition became_flag (rows : list joined_row) : list Z :=
  cumsum ((λ r, eq_period (Some (ts_month (j_became r))) (j_date r)) <$> rows).

Definition churn_flag (rows : list joined_row) : list Z :=
  cumsum ((λ r, eq_period (ts_month <$> j_churn r) (j_date r)) <$> rows).

(** [became_flag & ~churn_flag] on the cumulated counts. *)
Definition active_flag (rows : list joined_row) : list Z :=
  zip_with (λ b c, Z.land b (Z.lnot c)) (became_flag rows) (churn_flag rows).

Record period_row : Type := PeriodRow {
  p_date : Z;
  p_volume : Z;
  p_churned : bool
}.

(** Boolean indexing [df[mask]]. *)
Definition mask_select {A : Type} (mask : list bool) (rows : list A) : list A :=
  (filter (λ br, br.1 = true) (zip mask rows)).*2.

Definition active_mask (rows : list joined_row) : list bool :=
  (λ z, negb (z =? 0)%Z) <$> active_flag rows.

Definition active_periods (rows : list joined_row) : list period_row :=
  mask_select (active_mask rows)
    ((λ r, PeriodRow (j_date r) (j_volume r) (bool_decide (is_Some (j_churn r)))) <$> rows).

(** ** Term segmentation (lines 175-193) *)

Definition term_dict : dict nat :=
  [("Anual"%string, 12); ("Trimestral"%string, 3); ("Mensal"%string, 1);
   ("Semestral"%string, 6)].

(** [term_dict[filter_rows['last_recurrence']]]. *)
Definition lookup_term (filter_rows : option (dict string)) : result nat :=
  match filter_rows with
  | None => raise TypeError
  | Some d =>
      match dict_get "last_recurrence"%string d with
      | None => raise KeyError
      | Some v =>
          match dict_get v term_dict with
          | None => raise KeyError
          | Some t => inr t
          end
      end
  end.

Definition keep_month_func {A : Type} (term : nat) (x : list A) : list bool :=
  replicate (term * (length x / term)) true ++ replicate (length x mod term) false.

Definition keep_months (term : nat) (rows : list period_row) : list period_row :=
  mask_select (keep_month_func term rows) rows.

(** [groupby] forms no empty group, so [x.iloc[0]] exists whenever the
    function is called. *)
Definition fix_churn_func (x : list bool) : list bool :=
  match x with
  | [] => []
  | b :: _ =>
      if b then replicate (length x - 1) false ++ [true]
      else replicate (length x) false
  end.

Definition set_churned (rows : list period_row) (col : list bool) : list period_row :=
  zip_with (λ r b, PeriodRow (p_date r) (p_volume r) b) rows col.

Definition fix_churn (rows : list period_row) : list period_row :=
  set_churned rows (fix_churn_func (p_churned <$> rows)).

(** [sorted(list(range(len(x) // term)) * term)], as integers. *)
Definition term_column {A : Type} (term : nat) (x : list A) : list Z :=
  merge_sort Z.le (mjoin (replicate term (Z.of_nat <$> seq 0 (length x / term)))).

(** ** Rolling statistics (lines 197-207) *)

(** Mean of the integers of one window, in binary64. *)
Definition mean (l : list Z) : float64 :=
  fdiv (foldl fadd fzero (float_of_int <$> l)) (float_of_int (Z.of_nat (length l))).

(** [x.rolling(w, min_periods = 1).mean()]: position [i] averages the (at
    most [w]) values ending at [i]. *)
Definition rolling_mean (w : nat) (x : list Z) : list (option float64) :=
  (λ i, Some (mean (drop (S i - w) (take (S i) x)))) <$> seq 0 (length x).

Definition shift {A : Type} (x : list (option A)) : list (option A) :=
  match x with
  | [] => []
  | _ :: _ => None :: removelast x
  end.

Definition fillna (d : float64) (x : list (option float64)) : list float64 :=
  default d <$> x.

Definition rolling_feature (w : nat) (x : list Z) : list float64 :=
  fillna fzero (shift (rolling_mean w x)).

(** Lines 198-207; with [take_diff] the integer volume is converted to
    binary64 and the rolling column is subtracted from it. *)
Definition volume_rm (rolling_window : Z) (x : list Z) : list float64 :=
  let rm := rolling_feature (Z.abs_nat rolling_window) x in
  if (rolling_window <? 0)%Z
  then zip_with (λ v m, fsub (float_of_int v) m) x rm
  else rm.

(** ** Segmented periods of one client (lines 179-210) *)

Record segment_row : Type := SegmentRow {
  s_date : Z;
  s_volume : Z;
  s_churned : bool;
  s_term : Z;
  s_rm : float64
}.

Definition trimmed (term : nat) (rows : list period_row) : list period_row :=
  fix_churn (keep_months term rows).

Definition segment (term : nat) (rolling_window : Z) (rows : list period_row)
  : list segment_row :=
  let kept := trimmed term rows in
  zip_with (λ rt m, SegmentRow (p_date rt.1) (p_volume rt.1) (p_churned rt.1) rt.2 m)
           (zip kept (term_column term kept))
           (volume_rm rolling_window (p_volume <$> kept)).

(** ** Pivot (lines 212-244) *)

Record term_row : Type := TermRow {
  o_client : Z;
  o_term_index : Z;
  o_volumes : list Z;
  o_rolling : list float64;
  o_churned : Z;
  o_term : option Z;
  o_month : option Z;
  o_train : option bool
}.

Definition month_column (include_month : pyflag) (first_date : Z) : option Z :=
  if truthy include_month then
    match include_month with
    | PyInt k => Some ((calendar_month first_date + k) mod 12)%Z
    | PyBool _ => Some (calendar_month first_date)
    end
  else None.

Definition train_column (split_by_date : option timestamp) (first_date : Z)
  : option bool :=
  (λ d, ts_ltb (month_start first_date) d) <$> split_by_date.

(** One (client, term) group of [groupby(...).agg(behavior_agg_dict)] with the
    columns added after it. *)
Definition agg_term (include_term : bool) (include_month : pyflag)
    (split_by_date : option timestamp) (client : Z) (rows : list segment_row) (t : Z)
  : list term_row :=
  let group := filter (λ r, s_term r = t) rows in
  match group with
  | [] => []
  | first :: _ =>
      [TermRow client t (s_volume <$> group) (s_rm <$> group)
               (sum_Z ((λ r, Z.b2z (s_churned r)) <$> group))
               (if include_term then Some t else None)
               (month_column include_month (s_date first))
               (train_column split_by_date (s_date first))]
  end.

Definition pivot (include_term : bool) (include_month : pyflag)
    (split_by_date : option timestamp) (client : Z) (rows : list segment_row)
  : list term_row :=
  sorted_unique (s_term <$> rows)
    ≫= agg_term include_term include_month split_by_date client rows.

(** ** The pipeline *)

Definition cohort_rows (demgeo_df : demgeo) (filter_rows : option (dict string))
  : result (list customer) :=
  let! selected := select_columns (demgeo_df_listtokeep filter_rows) demgeo_df in
  let! kept := apply_filter_rows filter_rows selected in
  inr (dg_rows kept).

Definition augmented_behavior (rows : list customer) (behavior_df : list event)
  : list event :=
  let restricted := restrict_behavior rows behavior_df in
  restricted ++ ids_no_behavior rows restricted.

Definition min_date (behavior_df : list event) : option Z :=
  date_min (level_dates (groupby_sum behavior_df)).

Definition max_date (behavior_df : list event) : option Z :=
  date_max (level_dates (groupby_sum behavior_df)).

Definition period_grid (behavior_df : list event) : result (list Z) :=
  pd_date_range (min_date behavior_df) (max_date behavior_df).

Definition py_assert (b : bool) : result unit :=
  if b then inr tt else raise AssertionError.

Definition periodized (behavior_df : list event) : result (list (Z * list (Z * Z))) :=
  let! date_range := period_grid behavior_df in
  inr (reindex date_range (groupby_sum behavior_df)).

Definition joined_frame (rows : list customer) (behavior_df : list event)
  : result (list (Z * list joined_row)) :=
  let! frame := periodized (augmented_behavior rows behavior_df) in
  let! _ := py_assert (length (remove_dups frame.*1)
                       =? length (remove_dups (client_ids rows))) in
  join_demgeo rows frame.

Definition active_frame (joined : list (Z * list joined_row))
  : list (Z * list period_row) :=
  (λ blk, (blk.1, active_periods blk.2)) <$> joined.

(** The name [behavior_volume_col_rm] is bound only under [if rolling_window:]. *)
Definition behavior_volume_col_rm (rolling_window : option Z) : option Z :=
  match rolling_window with
  | Some w => if (w =? 0)%Z then None else Some w
  | None => None
  end.

Definition read_local {A : Type} (x : option A) : result A :=
  match x with
  | Some a => inr a
  | None => raise UnboundLocalError
  end.

(** Lines 180-182 on a frame that the active filter left without rows:
    [transform] then returns an empty float column, line 181 reads it as a
    list of column labels and keeps no column, and the [drop] of line 182
    raises [KeyError]. *)
Definition drop_keep_month (active : list (Z * list period_row)) : result unit :=
  match active ≫= snd with
  | [] => raise KeyError
  | _ :: _ => inr tt
  end.

Definition transform (demgeo_df : demgeo) (behavior_df : list event)
    (filter_rows : option (dict string)) (rolling_window : option Z)
    (include_term : bool) (include_month : pyflag)
    (split_by_date : option timestamp) : result (list term_row) :=
  let! rows := cohort_rows demgeo_df filter_rows in
  let! joined := joined_frame rows behavior_df in
  let active := active_frame joined in
  let! term := lookup_term filter_rows in
  let! _ := drop_keep_month active in
  let! w := read_local (behavior_volume_col_rm rolling_window) in
  inr (active ≫= λ blk,
         pivot include_term include_month split_by_date blk.1 (segment term w blk.2)).

Definition process_behavior (demgeo_df : demgeo) (behavior_df : list event)
    (filter_rows : option (dict string)) (rolling_window : option Z)
    (include_term : bool) (include_month : pyflag)
    (split_by_date : option timestamp) : result (list term_row) :=
  if consistency_check demgeo_df
  then transform demgeo_df behavior_df filter_rows rolling_window
                 include_term include_month split_by_date
  else raise ValueError.

Definition rows_of (client : Z) (out : list term_row) : list term_row :=
  filter (λ r, o_client r = client) out.

(** [df.loc[client]]: the rows of one client in a frame. *)
Definition client_rows {A : Type} (client : Z) (frame : list (Z * list A)) : list A :=
  filter (λ blk, blk.1 = client) frame ≫= snd.

(** ** Scenarios *)

Definition trimestral : option (dict string) :=
  Some [("last_recurrence"%string, "Trimestral"%string)].

Definition plan (v : string) : dict string := [("last_recurrence"%string, v)].

Definition jan : Z := 564.

Definition scenario_demgeo (churn : option timestamp) : demgeo :=
  Demgeo ["last_recurrence"%string]
         [Customer 7 (Timestamp jan 4) churn (plan "Trimestral")].

Definition scenario_behavior : list event :=
  [Event 7 (Timestamp jan 10) 2; Event 7 (Timestamp (jan + 1) 3) 1;
   Event 7 (Timestamp (jan + 3) 0) 3; Event 7 (Timestamp (jan + 4) 8) 4;
   Event 7 (Timestamp (jan + 4) 9) 1; Event 7 (Timestamp (jan + 5) 1) 1]%Z.


(** ** Notions used in the statements *)

(** [n] consecutive blocks of [term] equal indices: 0,..,0,1,..,1,... *)
Definition term_blocks (term n : nat) : list Z :=
  seq 0 n ≫= λ j, replicate term (Z.of_nat j).

(** The row [agg_term] builds for a term index that occurs in the frame. *)
Definition term_obs (include_term : bool) (include_month : pyflag)
    (split_by_date : option timestamp) (client : Z) (rows : list segment_row) (t : Z)
  : term_row :=
  let group := filter (λ r, s_term r = t) rows in
  let first_date := default 0%Z (s_date <$> head group) in
  TermRow client t (s_volume <$> group) (s_rm <$> group)
          (sum_Z ((λ r, Z.b2z (s_churned r)) <$> group))
          (if include_term then Some t else None)
          (month_column include_month first_date)
          (train_column split_by_date first_date).

Definition churned_sum (rows : list segment_row) (t : Z) : Z :=
  sum_Z ((λ r, Z.b2z (s_churned r)) <$> filter (λ r, s_term r = t) rows).

(** Summed volume of client [i] in month [p], zero where nothing was
    recorded. *)
Definition volume_at (behavior_df : list event) (i p : Z) : Z :=
  default 0%Z (cell_get p (monthly_sums (filter (λ e, ev_client e = i) behavior_df))).

Definition joined_block (rows : list customer) (grid : list Z)
    (behavior_df : list event) (i : Z) : list joined_row :=
  reindex_last_level grid (monthly_sums (filter (λ e, ev_client e = i) behavior_df))
    ≫= λ cell,
      (λ c, JoinedRow cell.1 cell.2 (became_customer_date c) (churn_date c))
        <$> filter (λ c, bridge_company_id c = i) rows.

(** The month [m] lies on the grid that starts at [a], at or before [p]. *)
Definition reached (a m p : Z) : bool := bool_decide (a ≤ m ≤ p)%Z.

Definition churn_reached (a : Z) (churn : option timestamp) (p : Z) : bool :=
  match churn with
  | Some ch => reached a (ts_month ch) p
  | None => false
  end.

(** What the two cumulated flags make of period [p] for a client. *)
Definition active_at (a : Z) (became : timestamp) (churn : option timestamp) (p : Z)
  : bool :=
  reached a (ts_month became) p && negb (churn_reached a churn p).

(** The cohort filter keeps records as they are, apart from their filter
    cells. *)
Definition same_lifecycle (c0 c : customer) : Prop :=
  bridge_company_id c0 = bridge_company_id c
  ∧ became_customer_date c0 = became_customer_date c
  ∧ churn_date c0 = churn_date c.

(** ** Scenarios, continued *)

Definition unwrap {A : Type} (d : A) (c : result A) : A :=
  match c with
  | inr a => a
  | inl _ => d
  end.

(** A cohort of quarterly clients over January to June: 7 stays all along,
    8 joins in May without any event, 9 churns in April, 5 became a client
    before the first recorded month; 6 is on a monthly plan and 99 is
    unknown to the demographic table. *)
Definition cohort_demgeo : demgeo :=
  Demgeo ["last_recurrence"%string]
         [Customer 7 (Timestamp jan 4) None (plan "Trimestral");
          Customer 8 (Timestamp (jan + 4) 2) None (plan "Trimestral");
          Customer 9 (Timestamp jan 0) (Some (Timestamp (jan + 3) 5)) (plan "Trimestral");
          Customer 5 (Timestamp (jan - 2) 7) None (plan "Trimestral");
          Customer 6 (Timestamp jan 1) None (plan "Mensal")]%Z.

Definition cohort_behavior : list event :=
  scenario_behavior ++
  [Event 9 (Timestamp jan 3) 6; Event 9 (Timestamp (jan + 2) 9) 2;
   Event 9 (Timestamp (jan + 4) 1) 7; Event 5 (Timestamp (jan + 1) 1) 3;
   Event 5 (Timestamp (jan + 5) 2) 4; Event 6 (Timestamp jan 6) 1;
   Event 99 (Timestamp (jan + 2) 2) 5]%Z.

Definition cohort_selected : list customer :=
  Eval vm_compute in unwrap [] (cohort_rows cohort_demgeo trimestral).

Definition cohort_joined : list (Z * list joined_row) :=
  Eval vm_compute in unwrap [] (joined_frame cohort_selected cohort_behavior).

Definition cohort_grid : list Z :=
  Eval vm_compute in
    unwrap [] (period_grid (augmented_behavior cohort_selected cohort_behavior)).

Definition cohort_out : list term_row :=
  Eval vm_compute in
    unwrap [] (process_behavior cohort_demgeo cohort_behavior trimestral (Some 2%Z)
                                true (PyBool true) None).

(** The second row of that run: client 7, term 1. *)
Definition cohort_row : term_row :=
  Eval vm_compute in default (TermRow 0 0 [] [] 0 None None None) (cohort_out !! 1).






(** Five active periods of one client; with a term of three the last two
    are the incomplete tail. *)
Definition five_periods (v4 v5 : Z) : list period_row :=
  [PeriodRow jan 1 false; PeriodRow (jan + 1) 2 false; PeriodRow (jan + 2) 3 false;
   PeriodRow (jan + 3) v4 false; PeriodRow (jan + 4) v5 false]%Z.

(** A client on a plan that [term_dict] does not list. *)
Definition bimestral_demgeo : demgeo :=
  Demgeo ["last_recurrence"%string]
         [Customer 3 (Timestamp jan 4) None (plan "Bimestral")].

(** A record matches the filter when each filter column holds the required
    value. *)
Definition matches (filter : dict string) (c : customer) : Prop :=
  Forall (λ kv, dict_get kv.1 (cohort c) = Some kv.2) filter.

#[global] Instance matches_dec (filter : dict string) (c : customer) :
  Decision (matches filter c).
Proof. unfold matches. apply _. Defined.

(** One turn of the loop of lines 117-119, on the rows alone. *)
Definition rows_step (rows : list customer) (kv : string * string) : list customer :=
  drop_cell kv.1 <$> filter (λ c, dict_get kv.1 (cohort c) = Some kv.2) rows.

Definition drop_cells (keys : list string) (c : customer) : customer :=
  Customer (bridge_company_id c) (became_customer_date c) (churn_date c)
           (filter (λ kv, kv.1 ∉ keys) (cohort c)).

(** The month at which a client stops being active on a grid that ends at
    [last]: its churn-month, or the month after the grid. *)
Definition active_stop (last : Z) (churn : option timestamp) : Z :=
  match churn with
  | Some ch => Z.min (ts_month ch) (last + 1)
  | None => (last + 1)%Z
  end.

(** A record reduced to the columns the pipeline keeps after filtering. *)
Definition lifecycle (c : customer) : customer :=
  Customer (bridge_company_id c) (became_customer_date c) (churn_date c) [].

(** Summed volume, as an int64 sum, of the events of client [i] dated in
    month [p]. *)
Definition monthly_volume (behavior_df : list event) (i p : Z) : Z :=
  sum_int64 (total_issues
               <$> filter (λ e, ev_client e = i ∧ event_month e = p) behavior_df).

(** * Properties *)

(** ** Sorted distinct keys *)

Section sorted_unique.

Lemma elem_of_sorted_unique (x : Z) (l : list Z) : x ∈ sorted_unique l ↔ x ∈ l.
Proof.
  unfold sorted_unique. rewrite merge_sort_Permutation. apply elem_of_remove_dups.
Qed.

Lemma NoDup_sorted_unique (l : list Z) : NoDup (sorted_unique l).
Proof.
  unfold sorted_unique. rewrite merge_sort_Permutation. apply NoDup_remove_dups.
Qed.

Lemma Sorted_sorted_unique (l : list Z) : Sorted Z.le (sorted_unique l).
Proof. apply (Sorted_merge_sort Z.le). Qed.

Lemma sorted_unique_nil_inv (l : list Z) : sorted_unique l = [] → l = [].
Proof.
  intros E. destruct l as [|x l]; [done|].
  assert (x ∈ sorted_unique (x :: l)) as H by (apply elem_of_sorted_unique; left).
  rewrite E in H. by apply not_elem_of_nil in H.
Qed.

(** A sorted duplicate-free list is the key list of everything that has
    its elements. *)
Lemma sorted_unique_unique (l k : list Z) :
  Sorted Z.le l → NoDup l → (∀ x, x ∈ l ↔ x ∈ k) → sorted_unique k = l.
Proof.
  intros Hs Hn Hel.
  apply (Sorted_unique Z.le); [apply Sorted_sorted_unique|done|].
  apply NoDup_Permutation; [apply NoDup_sorted_unique|done|].
  intros x. rewrite elem_of_sorted_unique. by rewrite Hel.
Qed.

Lemma sorted_unique_length_ext (l k : list Z) :
  (∀ x, x ∈ l ↔ x ∈ k) →
  length (remove_dups l) = length (remove_dups k).
Proof.
  intros Hel. apply Permutation_length, NoDup_Permutation;
    [apply NoDup_remove_dups..|].
  intros x. by rewrite !elem_of_remove_dups.
Qed.

End sorted_unique.

(** ** Grid bounds *)

Section bounds.

Lemma foldl_min_le (r : list Z) (x : Z) :
  (foldl Z.min x r ≤ x)%Z ∧ Forall (λ y, foldl Z.min x r ≤ y)%Z r
  ∧ foldl Z.min x r ∈ x :: r.
Proof.
  revert x. induction r as [|y r IH]; intros x; simpl.
  - split; [lia|]. split; [constructor|left].
  - destruct (IH (Z.min x y)) as (H1 & H2 & H3). split; [lia|]. split.
    + constructor; [lia|done].
    + apply elem_of_cons in H3 as [->|H3].
      * destruct (Z.min_spec x y) as [[_ ->]|[_ ->]]; [left|right; left].
      * by do 2 right.
Qed.

Lemma foldl_max_ge (r : list Z) (x : Z) :
  (x ≤ foldl Z.max x r)%Z ∧ Forall (λ y, y ≤ foldl Z.max x r)%Z r.
Proof.
  revert x. induction r as [|y r IH]; intros x; simpl.
  - split; [lia|constructor].
  - destruct (IH (Z.max x y)) as (H1 & H2). split; [lia|].
    constructor; [lia|done].
Qed.

Lemma date_min_spec (l : list Z) (m : Z) :
  date_min l = Some m → m ∈ l ∧ ∀ x, x ∈ l → (m ≤ x)%Z.
Proof.
  destruct l as [|x r]; [done|]. simpl. intros [= <-].
  destruct (foldl_min_le r x) as (H1 & H2 & H3). split; [done|].
  intros y [->|Hy]%elem_of_cons; [done|].
  by apply (proj1 (Forall_forall _ _) H2).
Qed.

Lemma date_max_spec (l : list Z) (m : Z) :
  date_max l = Some m → ∀ x, x ∈ l → (x ≤ m)%Z.
Proof.
  destruct l as [|x r]; [done|]. simpl. intros [= <-].
  destruct (foldl_max_ge r x) as (H1 & H2).
  intros y [->|Hy]%elem_of_cons; [done|].
  by apply (proj1 (Forall_forall _ _) H2).
Qed.

Lemma date_min_is_Some (l : list Z) : l ≠ [] → is_Some (date_min l).
Proof. destruct l; [done|]. by eexists. Qed.

Lemma date_max_is_Some (l : list Z) : l ≠ [] → is_Some (date_max l).
Proof. destruct l; [done|]. by eexists. Qed.

End bounds.

(** ** Boolean indexing *)

Section mask_select.
Context {A : Type}.
Implicit Types (l : list A) (mask : list bool).

Lemma mask_select_nil_r mask : mask_select mask ([] : list A) = [].
Proof. unfold mask_select. by rewrite zip_with_nil_r. Qed.

Lemma mask_select_cons b mask x l :
  mask_select (b :: mask) (x :: l)
  = if b then x :: mask_select mask l else mask_select mask l.
Proof.
  unfold mask_select. simpl. rewrite filter_cons. simpl.
  destruct b; by case_decide.
Qed.

Lemma mask_select_app m1 m2 l1 l2 :
  length m1 = length l1 →
  mask_select (m1 ++ m2) (l1 ++ l2) = mask_select m1 l1 ++ mask_select m2 l2.
Proof.
  intros Hlen. unfold mask_select.
  rewrite zip_with_app by done. by rewrite filter_app, fmap_app.
Qed.

Lemma mask_select_true l : mask_select (replicate (length l) true) l = l.
Proof.
  induction l as [|x l IH]; [done|]. simpl.
  by rewrite mask_select_cons, IH.
Qed.

Lemma mask_select_false n l : mask_select (replicate n false) l = [].
Proof.
  revert n. induction l as [|x l IH]; intros n.
  - apply mask_select_nil_r.
  - destruct n as [|n]; [done|]. simpl. by rewrite mask_select_cons.
Qed.

Lemma mask_select_all_false mask l :
  Forall (λ b, b = false) mask → mask_select mask l = [].
Proof.
  intros H. revert l. induction H as [|b mask -> _ IH]; intros l; [done|].
  destruct l as [|x l]; [apply mask_select_nil_r|].
  by rewrite mask_select_cons.
Qed.

(** Selecting with a mask computed row by row is a filter. *)
Lemma mask_select_pointwise (f : A → bool) l :
  mask_select (f <$> l) l = filter (λ x, f x = true) l.
Proof.
  induction l as [|x l IH]; [done|].
  rewrite fmap_cons, mask_select_cons, filter_cons, IH.
  destruct (f x) eqn:E; by case_decide.
Qed.

End mask_select.

Lemma mask_select_fmap {A B : Type} (f : A → B) (mask : list bool) (l : list A) :
  mask_select mask (f <$> l) = f <$> mask_select mask l.
Proof.
  revert l. induction mask as [|b mask IH]; intros l; [done|].
  destruct l as [|x l]; [done|]. simpl.
  rewrite !mask_select_cons, IH. by destruct b.
Qed.

(** ** Trimming the incomplete tail *)

Section keep_months.

Lemma div_mod_length (term n : nat) : term * (n / term) + n mod term = n.
Proof.
  destruct term as [|t]; [simpl; lia|].
  symmetry. apply Nat.div_mod_eq.
Qed.

Lemma keep_month_func_length {A : Type} (term : nat) (x : list A) :
  length (keep_month_func term x) = length x.
Proof.
  unfold keep_month_func.
  rewrite length_app, !length_replicate. apply div_mod_length.
Qed.

Lemma keep_months_take (term : nat) (rows : list period_row) :
  keep_months term rows = take (term * (length rows / term)) rows.
Proof.
  unfold keep_months, keep_month_func.
  set (n := term * (length rows / term)).
  assert (n ≤ length rows) as Hn
    by (pose proof (div_mod_length term (length rows)); lia).
  set (m := length rows mod term).
  transitivity (mask_select (replicate n true ++ replicate m false)
                            (take n rows ++ drop n rows));
    [by rewrite take_drop|].
  rewrite mask_select_app by (rewrite length_replicate, length_take; lia).
  rewrite mask_select_false, app_nil_r.
  replace n with (length (take n rows)) at 1 by (rewrite length_take; lia).
  apply mask_select_true.
Qed.

Lemma keep_months_length (term : nat) (rows : list period_row) :
  length (keep_months term rows) = term * (length rows / term).
Proof.
  rewrite keep_months_take, length_take.
  pose proof (div_mod_length term (length rows)). lia.
Qed.

Lemma keep_months_short (term : nat) (rows : list period_row) :
  length rows < term → keep_months term rows = [].
Proof.
  intros H. rewrite keep_months_take.
  rewrite Nat.div_small by done. by rewrite Nat.mul_0_r.
Qed.

End keep_months.

(** ** The term column *)


Section term_column.

Lemma bind_cons_Permutation {A : Type} (f : A → list A) (l : list A) :
  (l ≫= λ j, j :: f j) ≡ₚ l ++ (l ≫= f).
Proof.
  induction l as [|x l IH]; [done|].
  rewrite !bind_cons. simpl. constructor.
  rewrite IH. rewrite !(assoc app). apply Permutation_app_tail, Permutation_app_comm.
Qed.

Lemma mjoin_replicate_Permutation {A : Type} (t : nat) (l : list A) :
  mjoin (replicate t l) ≡ₚ l ≫= replicate t.
Proof.
  induction t as [|t IH].
  - induction l as [|x l IHl]; [done|]. rewrite bind_cons. exact IHl.
  - change (l ++ mjoin (replicate t l) ≡ₚ l ≫= λ j, j :: replicate t j).
    rewrite IH. symmetry. apply (bind_cons_Permutation (replicate t)).
Qed.

Lemma StronglySorted_replicate (t : nat) (z : Z) :
  StronglySorted Z.le (replicate t z).
Proof.
  induction t as [|t IH]; simpl; constructor; [done|].
  apply Forall_forall. intros x [-> _]%elem_of_replicate. lia.
Qed.

Lemma StronglySorted_blocks (term a n : nat) :
  StronglySorted Z.le (seq a n ≫= λ j, replicate term (Z.of_nat j)).
Proof.
  revert a. induction n as [|n IH]; intros a; [constructor|].
  rewrite <-cons_seq, bind_cons. apply StronglySorted_app_2.
  - intros x1 x2 [-> _]%elem_of_replicate (j & [-> _]%elem_of_replicate & Hj)%list_elem_of_bind.
    apply elem_of_seq in Hj. lia.
  - apply StronglySorted_replicate.
  - apply IH.
Qed.

Lemma term_column_blocks {A : Type} (term : nat) (x : list A) :
  term_column term x = term_blocks term (length x / term).
Proof.
  unfold term_column, term_blocks.
  apply (Sorted_unique Z.le).
  - apply (Sorted_merge_sort Z.le).
  - apply StronglySorted_Sorted, StronglySorted_blocks.
  - rewrite merge_sort_Permutation, mjoin_replicate_Permutation.
    by rewrite list_fmap_bind.
Qed.

Lemma term_blocks_length (term n : nat) : length (term_blocks term n) = term * n.
Proof.
  unfold term_blocks. generalize 0 as a.
  induction n as [|n IH]; intros a; [simpl; lia|].
  rewrite <-cons_seq, bind_cons, length_app, length_replicate, IH. lia.
Qed.

Lemma elem_of_term_blocks (term n : nat) (z : Z) :
  z ∈ term_blocks term n ↔ ∃ j, z = Z.of_nat j ∧ j < n ∧ term ≠ 0.
Proof.
  unfold term_blocks. rewrite list_elem_of_bind. split.
  - intros (j & [-> ?]%elem_of_replicate & Hj%elem_of_seq). exists j. lia.
  - intros (j & -> & ? & ?). exists j. rewrite elem_of_replicate, elem_of_seq. lia.
Qed.

(** The distinct term indices of a client, in order. *)
Lemma sorted_unique_term_blocks (term n : nat) :
  term ≠ 0 → sorted_unique (term_blocks term n) = Z.of_nat <$> seq 0 n.
Proof.
  intros Ht. apply sorted_unique_unique.
  - apply StronglySorted_Sorted.
    generalize 0 as a. induction n as [|n IH]; intros a; simpl; constructor;
      [apply IH|].
    apply Forall_forall. intros x (j & -> & Hj%elem_of_seq)%list_elem_of_fmap. lia.
  - apply NoDup_fmap; [apply _|apply NoDup_seq].
  - intros z. rewrite elem_of_term_blocks, list_elem_of_fmap.
    split.
    + intros (j & -> & Hj%elem_of_seq). exists j. split; [done|]. split; [lia|done].
    + intros (j & -> & ? & _). exists j. rewrite elem_of_seq. split; [done|lia].
Qed.

Lemma term_blocks_snoc (term n : nat) :
  term_blocks term (S n) = term_blocks term n ++ replicate term (Z.of_nat n).
Proof.
  unfold term_blocks. rewrite seq_S, bind_app, bind_cons.
  by rewrite app_nil_r.
Qed.

End term_column.

(** ** Columns of the segmented frame *)

Lemma fmap_zip_with_proj_l {A B C D : Type} (f : A → B → C) (g : C → D) (h : A → D)
    (l : list A) (k : list B) :
  (∀ x y, g (f x y) = h x) → length l ≤ length k →
  g <$> zip_with f l k = h <$> l.
Proof.
  intros Hg. revert k. induction l as [|x l IH]; intros [|y k] Hlen; simpl in *;
    [done|done|lia|].
  rewrite Hg, IH by lia. done.
Qed.

Lemma fmap_zip_with_proj_r {A B C D : Type} (f : A → B → C) (g : C → D) (h : B → D)
    (l : list A) (k : list B) :
  (∀ x y, g (f x y) = h y) → length k ≤ length l →
  g <$> zip_with f l k = h <$> k.
Proof.
  intros Hg. revert k. induction l as [|x l IH]; intros [|y k] Hlen; simpl in *;
    [done|lia|done|].
  rewrite Hg, IH by lia. done.
Qed.

Section fix_churn.

Lemma fix_churn_func_length (x : list bool) : length (fix_churn_func x) = length x.
Proof.
  destruct x as [|[] x]; simpl; [done|..].
  - rewrite length_app, length_replicate. simpl. lia.
  - by rewrite length_replicate.
Qed.

Lemma fix_churn_length (rows : list period_row) :
  length (fix_churn rows) = length rows.
Proof.
  unfold fix_churn, set_churned.
  rewrite length_zip_with_l_eq; [done|].
  by rewrite fix_churn_func_length, length_fmap.
Qed.

Lemma fix_churn_date (rows : list period_row) :
  p_date <$> fix_churn rows = p_date <$> rows.
Proof.
  apply fmap_zip_with_proj_l; [done|].
  by rewrite fix_churn_func_length, length_fmap.
Qed.

Lemma fix_churn_volume (rows : list period_row) :
  p_volume <$> fix_churn rows = p_volume <$> rows.
Proof.
  apply fmap_zip_with_proj_l; [done|].
  by rewrite fix_churn_func_length, length_fmap.
Qed.

Lemma fix_churn_churned (rows : list period_row) :
  p_churned <$> fix_churn rows = fix_churn_func (p_churned <$> rows).
Proof.
  unfold fix_churn, set_churned.
  rewrite (fmap_zip_with_proj_r _ _ id); [apply list_fmap_id|done|].
  by rewrite fix_churn_func_length, length_fmap.
Qed.

(** On a column that is constantly [b] (one client, one churn date). *)
Lemma fix_churn_func_replicate (n : nat) (b : bool) :
  fix_churn_func (replicate (S n) b)
  = if b then replicate n false ++ [true] else replicate (S n) false.
Proof.
  simpl. rewrite length_replicate, Nat.sub_0_r. by destruct b.
Qed.

End fix_churn.

Section rolling.

Lemma rolling_mean_length (w : nat) (x : list Z) :
  length (rolling_mean w x) = length x.
Proof. unfold rolling_mean. by rewrite length_fmap, length_seq. Qed.

Lemma shift_take {A : Type} (x : list (option A)) :
  shift x = take (length x) (None :: x).
Proof.
  destruct x as [|a x]; [done|]. simpl. f_equal.
  revert a. induction x as [|b x IH]; intros a; [done|].
  simpl. f_equal. apply IH.
Qed.

Lemma shift_length {A : Type} (x : list (option A)) : length (shift x) = length x.
Proof. rewrite shift_take, length_take. simpl. lia. Qed.

Lemma rolling_feature_length (w : nat) (x : list Z) :
  length (rolling_feature w x) = length x.
Proof.
  unfold rolling_feature, fillna.
  by rewrite length_fmap, shift_length, rolling_mean_length.
Qed.

Lemma volume_rm_length (w : Z) (x : list Z) : length (volume_rm w x) = length x.
Proof.
  unfold volume_rm. destruct (w <? 0)%Z.
  - rewrite length_zip_with_l_eq; [done|]. by rewrite rolling_feature_length.
  - apply rolling_feature_length.
Qed.

(** The trailing window never looks past its own position: the rolling
    column of a prefix is the prefix of the rolling column. *)
Lemma rolling_mean_take (w n : nat) (x : list Z) :
  rolling_mean w (take n x) = take n (rolling_mean w x).
Proof.
  unfold rolling_mean. rewrite <-fmap_take, take_seq, length_take.
  apply list_fmap_ext. intros j i Hi.
  apply lookup_seq in Hi as [-> Hi]. simpl.
  do 3 f_equal. rewrite take_take. f_equal. lia.
Qed.

Lemma shift_take_commute {A : Type} (n : nat) (r : list (option A)) :
  shift (take n r) = take n (shift r).
Proof.
  destruct (decide (n ≤ length r)) as [Hn|Hn].
  - rewrite !shift_take, take_take, length_take, !Nat.min_l by done.
    destruct n as [|n]; [done|]. simpl. f_equal.
    rewrite take_take. f_equal. lia.
  - rewrite (take_ge r) by lia. rewrite take_ge; [done|].
    rewrite shift_length. lia.
Qed.

Lemma rolling_feature_take (w n : nat) (x : list Z) :
  rolling_feature w (take n x) = take n (rolling_feature w x).
Proof.
  unfold rolling_feature, fillna.
  by rewrite <-fmap_take, rolling_mean_take, shift_take_commute.
Qed.

Lemma volume_rm_take (w : Z) (n : nat) (x : list Z) :
  volume_rm w (take n x) = take n (volume_rm w x).
Proof.
  unfold volume_rm. rewrite rolling_feature_take.
  destruct (w <? 0)%Z; [|done]. by rewrite zip_with_take.
Qed.

End rolling.

Section segment.
Variables (term : nat) (w : Z) (rows : list period_row).

Lemma trimmed_length :
  length (trimmed term rows) = term * (length rows / term).
Proof. unfold trimmed. by rewrite fix_churn_length, keep_months_length. Qed.

Lemma trimmed_date :
  p_date <$> trimmed term rows = take (term * (length rows / term)) (p_date <$> rows).
Proof. unfold trimmed. by rewrite fix_churn_date, keep_months_take, fmap_take. Qed.

Lemma trimmed_volume :
  p_volume <$> trimmed term rows
  = take (term * (length rows / term)) (p_volume <$> rows).
Proof. unfold trimmed. by rewrite fix_churn_volume, keep_months_take, fmap_take. Qed.

Lemma trimmed_churned :
  p_churned <$> trimmed term rows
  = fix_churn_func (take (term * (length rows / term)) (p_churned <$> rows)).
Proof. unfold trimmed. by rewrite fix_churn_churned, keep_months_take, fmap_take. Qed.

Lemma term_column_trimmed :
  term ≠ 0 →
  term_column term (trimmed term rows) = term_blocks term (length rows / term).
Proof.
  intros Ht. rewrite term_column_blocks, trimmed_length.
  by rewrite Nat.mul_comm, Nat.div_mul.
Qed.

Lemma term_column_trimmed_length :
  length (term_column term (trimmed term rows)) = length (trimmed term rows).
Proof.
  rewrite term_column_blocks, term_blocks_length, trimmed_length.
  destruct term as [|t]; [done|].
  f_equal. rewrite Nat.mul_comm. by apply Nat.div_mul.
Qed.

Lemma segment_length :
  length (segment term w rows) = term * (length rows / term).
Proof.
  unfold segment.
  rewrite length_zip_with_l_eq, length_zip_with_l_eq.
  - apply trimmed_length.
  - by rewrite term_column_trimmed_length.
  - rewrite length_zip_with_l_eq by (by rewrite term_column_trimmed_length).
    by rewrite volume_rm_length, length_fmap.
Qed.

Lemma segment_zip_length :
  length (zip (trimmed term rows) (term_column term (trimmed term rows)))
  = length (volume_rm w (p_volume <$> trimmed term rows)).
Proof.
  rewrite length_zip_with_l_eq by (by rewrite term_column_trimmed_length).
  by rewrite volume_rm_length, length_fmap.
Qed.

Lemma segment_term :
  term ≠ 0 →
  s_term <$> segment term w rows = term_blocks term (length rows / term).
Proof.
  intros Ht. unfold segment.
  rewrite (fmap_zip_with_proj_l _ _ snd) by (done || by rewrite segment_zip_length).
  rewrite snd_zip by (by rewrite term_column_trimmed_length).
  by apply term_column_trimmed.
Qed.

Lemma segment_churned :
  s_churned <$> segment term w rows
  = fix_churn_func (take (term * (length rows / term)) (p_churned <$> rows)).
Proof.
  unfold segment.
  rewrite (fmap_zip_with_proj_l _ _ (λ rt, p_churned rt.1))
    by (done || by rewrite segment_zip_length).
  rewrite (fmap_zip_with_proj_l pair _ p_churned)
    by (done || by rewrite term_column_trimmed_length).
  apply trimmed_churned.
Qed.

Lemma segment_volume :
  s_volume <$> segment term w rows
  = take (term * (length rows / term)) (p_volume <$> rows).
Proof.
  unfold segment.
  rewrite (fmap_zip_with_proj_l _ _ (λ rt, p_volume rt.1))
    by (done || by rewrite segment_zip_length).
  rewrite (fmap_zip_with_proj_l pair _ p_volume)
    by (done || by rewrite term_column_trimmed_length).
  apply trimmed_volume.
Qed.

Lemma segment_date :
  s_date <$> segment term w rows
  = take (term * (length rows / term)) (p_date <$> rows).
Proof.
  unfold segment.
  rewrite (fmap_zip_with_proj_l _ _ (λ rt, p_date rt.1))
    by (done || by rewrite segment_zip_length).
  rewrite (fmap_zip_with_proj_l pair _ p_date)
    by (done || by rewrite term_column_trimmed_length).
  apply trimmed_date.
Qed.

(** The rolling column is computed on the trimmed volumes. *)
Lemma segment_rm :
  s_rm <$> segment term w rows = volume_rm w (p_volume <$> trimmed term rows).
Proof.
  unfold segment.
  rewrite (fmap_zip_with_proj_r _ _ id); [apply list_fmap_id|done|].
  by rewrite segment_zip_length.
Qed.

End segment.

(** ** The pivot of one client *)


Lemma bind_singleton_ext {A B : Type} (f : A → list B) (g : A → B) (l : list A) :
  (∀ x, x ∈ l → f x = [g x]) → l ≫= f = g <$> l.
Proof.
  induction l as [|x l IH]; intros Hf; [done|].
  rewrite bind_cons, fmap_cons, Hf by left. simpl. f_equal.
  apply IH. intros y Hy. apply Hf. by right.
Qed.

Section pivot.
Variables (it : bool) (im : pyflag) (sd : option timestamp) (client : Z).

Lemma agg_term_obs (rows : list segment_row) (t : Z) :
  t ∈ s_term <$> rows →
  agg_term it im sd client rows t = [term_obs it im sd client rows t].
Proof.
  intros (r & -> & Hr)%list_elem_of_fmap. unfold agg_term, term_obs.
  assert (r ∈ filter (λ r', s_term r' = s_term r) rows) as Hin
    by (by apply list_elem_of_filter).
  destruct (filter (λ r', s_term r' = s_term r) rows) as [|first group];
    [by apply not_elem_of_nil in Hin|done].
Qed.

Lemma agg_term_client (rows : list segment_row) (t : Z) (r : term_row) :
  r ∈ agg_term it im sd client rows t → o_client r = client.
Proof.
  unfold agg_term. destruct (filter _ rows); [by intros ?%not_elem_of_nil|].
  by intros ->%list_elem_of_singleton.
Qed.

Lemma pivot_client (rows : list segment_row) (r : term_row) :
  r ∈ pivot it im sd client rows → o_client r = client.
Proof.
  unfold pivot. intros (t & Hr & _)%list_elem_of_bind.
  by eapply agg_term_client.
Qed.

Lemma pivot_obs (term q : nat) (seg : list segment_row) :
  term ≠ 0 → s_term <$> seg = term_blocks term q →
  pivot it im sd client seg
  = term_obs it im sd client seg <$> (Z.of_nat <$> seq 0 q).
Proof.
  intros Ht Hseg. unfold pivot.
  rewrite Hseg, sorted_unique_term_blocks by done.
  apply bind_singleton_ext. intros t (j & -> & Hj%elem_of_seq)%list_elem_of_fmap.
  apply agg_term_obs. rewrite Hseg. apply elem_of_term_blocks.
  exists j. split; [done|]. split; [lia|done].
Qed.

End pivot.

(** ** Churn labels of one client *)


Lemma sum_Z_app (l k : list Z) : sum_Z (l ++ k) = (sum_Z l + sum_Z k)%Z.
Proof.
  induction l as [|z l IH]; [done|].
  change (z + sum_Z (l ++ k) = z + sum_Z l + sum_Z k)%Z. lia.
Qed.

Lemma sum_Z_zero (l : list Z) : Forall (λ z, z = 0%Z) l → sum_Z l = 0%Z.
Proof.
  induction 1 as [|z l -> _ IH]; [done|].
  change (0 + sum_Z l = 0)%Z. lia.
Qed.

(** ** Wrapped sums *)

Section sum_int64.

Lemma int64_small (z : Z) : (- 2 ^ 63 ≤ z < 2 ^ 63)%Z → int64 z = z.
Proof. intros Hz. unfold int64. rewrite Z.mod_small; lia. Qed.

Lemma int64_add_l (a b : Z) : int64 (int64 a + b) = int64 (a + b).
Proof.
  unfold int64. f_equal.
  replace ((a + 2 ^ 63) mod 2 ^ 64 - 2 ^ 63 + b + 2 ^ 63)%Z
    with ((a + 2 ^ 63) mod 2 ^ 64 + b)%Z by lia.
  rewrite Zplus_mod_idemp_l. f_equal. lia.
Qed.

Lemma foldl_int64 (acc : Z) (l : list Z) :
  foldl (λ a v, int64 (a + v)) (int64 acc) l = int64 (acc + sum_Z l).
Proof.
  revert acc. induction l as [|v l IH]; intros acc; simpl.
  - by rewrite Z.add_0_r.
  - rewrite int64_add_l, IH. f_equal.
    change (sum_Z (v :: l)) with (v + sum_Z l)%Z. lia.
Qed.

(** The wrapped sum is the sum reduced to the 64-bit range. *)
Lemma sum_int64_spec (l : list Z) : sum_int64 l = int64 (sum_Z l).
Proof. apply (foldl_int64 0). Qed.

Lemma sum_int64_zero (l : list Z) : Forall (λ z, z = 0%Z) l → sum_int64 l = 0%Z.
Proof. intros Hz. by rewrite sum_int64_spec, sum_Z_zero. Qed.

End sum_int64.

Section churned_sum.

Lemma term_obs_churned it im sd client rows t :
  o_churned (term_obs it im sd client rows t) = churned_sum rows t.
Proof. done. Qed.

Lemma churned_sum_false (rows : list segment_row) (t : Z) :
  Forall (λ r, s_churned r = false) rows → churned_sum rows t = 0%Z.
Proof.
  unfold churned_sum. induction 1 as [|r rows Hr _ IH]; [done|].
  rewrite filter_cons. case_decide; [|done].
  rewrite fmap_cons. simpl. rewrite Hr. simpl. apply IH.
Qed.

Lemma churned_sum_app (rows1 rows2 : list segment_row) (t : Z) :
  churned_sum (rows1 ++ rows2) t = (churned_sum rows1 t + churned_sum rows2 t)%Z.
Proof.
  unfold churned_sum. by rewrite filter_app, fmap_app, sum_Z_app.
Qed.

Lemma churned_column_false (rows : list segment_row) (n : nat) :
  s_churned <$> rows = replicate n false →
  Forall (λ r, s_churned r = false) rows.
Proof.
  intros H. apply (Forall_fmap s_churned (λ b, b = false)). rewrite H.
  by apply Forall_replicate.
Qed.

(** Only the client's last period carries the flag, and it lies in the
    last term. *)
Lemma churned_sum_last (term q n : nat) (seg : list segment_row) (j : nat) :
  term ≠ 0 →
  s_term <$> seg = term_blocks term (S q) →
  s_churned <$> seg = replicate n false ++ [true] →
  churned_sum seg (Z.of_nat j) = if decide (j = q) then 1%Z else 0%Z.
Proof.
  intros Ht Hterm Hch.
  induction seg as [|r0 seg0 _] using rev_ind; [by destruct n|].
  rewrite fmap_app in Hterm. rewrite fmap_app in Hch. simpl in Hterm, Hch.
  apply app_inj_tail in Hch as [Hinit Hlast].
  rewrite term_blocks_snoc in Hterm.
  destruct term as [|t]; [done|].
  rewrite replicate_S_end, (assoc app) in Hterm.
  apply app_inj_tail in Hterm as [_ Hlt].
  rewrite churned_sum_app, (churned_sum_false seg0)
    by (by eapply churned_column_false).
  unfold churned_sum. rewrite filter_cons, filter_nil.
  case_decide as Hj; case_decide as Hq; simpl; try done.
  - rewrite Hlast. done.
  - lia.
  - subst j. rewrite Hlt in Hj. done.
Qed.

End churned_sum.

(** ** The term rows of one client *)

Section customer_rows.
Variables (it : bool) (im : pyflag) (sd : option timestamp) (client : Z).
Variables (term : nat) (w : Z) (rows : list period_row).
Hypothesis term_pos : term ≠ 0.

Let out := pivot it im sd client (segment term w rows).
Let q := length rows / term.

Lemma customer_rows_obs :
  out = term_obs it im sd client (segment term w rows) <$> (Z.of_nat <$> seq 0 q).
Proof. apply (pivot_obs _ _ _ _ term); [done|by apply segment_term]. Qed.

Lemma customer_rows_length : length out = length rows / term.
Proof. rewrite customer_rows_obs. by rewrite !length_fmap, length_seq. Qed.

Lemma customer_rows_index : o_term_index <$> out = Z.of_nat <$> seq 0 (length out).
Proof.
  rewrite customer_rows_length. rewrite customer_rows_obs.
  rewrite <-list_fmap_compose. by rewrite list_fmap_id.
Qed.


Lemma take_constant_column (b : bool) :
  Forall (λ r, p_churned r = b) rows →
  take (term * q) (p_churned <$> rows) = replicate (term * q) b.
Proof.
  intros Hc. symmetry. apply replicate_as_Forall. split.
  - rewrite length_take, length_fmap.
    pose proof (div_mod_length term (length rows)). subst q. lia.
  - apply Forall_take, Forall_fmap. eapply Forall_impl; [exact Hc|]. done.
Qed.

Lemma customer_rows_never_churned :
  Forall (λ r, p_churned r = false) rows →
  Forall (λ r, o_churned r = 0%Z) out.
Proof.
  intros Hc. rewrite customer_rows_obs.
  apply Forall_fmap, Forall_forall. intros t _.
  change (churned_sum (segment term w rows) t = 0%Z).
  apply churned_sum_false.
  apply (churned_column_false _ (term * q)).
  rewrite segment_churned. fold q. rewrite (take_constant_column false Hc).
  destruct (term * q) as [|n]; [done|].
  by rewrite fix_churn_func_replicate.
Qed.

Lemma customer_rows_churned :
  Forall (λ r, p_churned r = true) rows →
  out ≠ [] →
  ∃ init last, out = init ++ [last]
    ∧ Forall (λ r, o_churned r = 0%Z) init ∧ o_churned last = 1%Z.
Proof.
  intros Hc Hne.
  pose proof (take_constant_column true Hc) as Htake.
  pose proof customer_rows_obs as Hout.
  pose proof (segment_churned term w rows) as Hch.
  pose proof (segment_term term w rows term_pos) as Hterm.
  fold q in Hch, Hterm. clearbody q.
  destruct q as [|q']; [by rewrite Hout in Hne|].
  rewrite Htake in Hch.
  destruct (term * S q') as [|n] eqn:E; [lia|].
  rewrite fix_churn_func_replicate in Hch.
  rewrite seq_S, !fmap_app in Hout. simpl in Hout.
  eexists _, _. split; [exact Hout|]. split.
  - apply Forall_fmap, Forall_fmap, Forall_forall. intros j Hj%elem_of_seq. simpl.
    change (churned_sum (segment term w rows) (Z.of_nat j) = 0%Z).
    rewrite (churned_sum_last term q' n _ j term_pos Hterm Hch).
    case_decide; [lia|done].
  - change (churned_sum (segment term w rows) (Z.of_nat q') = 1%Z).
    rewrite (churned_sum_last term q' n _ q' term_pos Hterm Hch).
    by case_decide.
Qed.

End customer_rows.

(** ** Frames keyed by client *)

Section keyed.

Lemma filter_Forall_all {A : Type} (P : A → Prop) `{∀ x, Decision (P x)}
    (l : list A) :
  Forall P l → filter P l = l.
Proof.
  induction 1 as [|x l Hx _ IH]; [done|].
  by rewrite filter_cons_True, IH.
Qed.

Lemma filter_Forall_none {A : Type} (P : A → Prop) `{∀ x, Decision (P x)}
    (l : list A) :
  Forall (λ x, ¬ P x) l → filter P l = [].
Proof.
  induction 1 as [|x l Hx _ IH]; [done|].
  by rewrite filter_cons_False.
Qed.

Lemma filter_bind_keyed {B : Type} (key : B → Z) (h : Z → list B)
    (keys : list Z) (c : Z) :
  NoDup keys → (∀ i x, x ∈ h i → key x = i) →
  filter (λ x, key x = c) (keys ≫= h) = if decide (c ∈ keys) then h c else [].
Proof.
  intros Hnd Hkey. induction Hnd as [|i keys Hi Hnd IH]; [done|].
  rewrite bind_cons, filter_app, IH.
  destruct (decide (i = c)) as [->|Hic].
  - rewrite filter_Forall_all
      by (apply Forall_forall; intros x Hx; by apply Hkey).
    rewrite (decide_False (P := c ∈ keys)) by done.
    rewrite (decide_True (P := c ∈ c :: keys)) by left.
    by rewrite app_nil_r.
  - rewrite filter_Forall_none
      by (apply Forall_forall; intros x Hx; rewrite (Hkey i x Hx); done).
    simpl. destruct (decide (c ∈ keys)) as [Hc|Hc].
    + by rewrite (decide_True (P := c ∈ i :: keys)) by (by right).
    + rewrite (decide_False (P := c ∈ i :: keys)); [done|].
      intros [->|?]%elem_of_cons; done.
Qed.

Lemma client_rows_keyed {A : Type} (g : Z → list A) (keys : list Z) (c : Z) :
  NoDup keys →
  client_rows c ((λ i, (i, g i)) <$> keys) = if decide (c ∈ keys) then g c else [].
Proof.
  intros Hnd. unfold client_rows.
  induction Hnd as [|i keys Hi Hnd IH]; [done|].
  rewrite fmap_cons, filter_cons. simpl.
  destruct (decide (i = c)) as [->|Hic].
  - rewrite bind_cons, IH. simpl.
    rewrite (decide_False (P := c ∈ keys)) by done.
    rewrite (decide_True (P := c ∈ c :: keys)) by left.
    by rewrite app_nil_r.
  - rewrite IH. destruct (decide (c ∈ keys)) as [Hc|Hc].
    + by rewrite (decide_True (P := c ∈ i :: keys)) by (by right).
    + rewrite (decide_False (P := c ∈ i :: keys)); [done|].
      intros [->|?]%elem_of_cons; done.
Qed.

(** With one record per client, selecting by id returns that record. *)
Lemma filter_unique_id (rows : list customer) (c : customer) :
  NoDup (client_ids rows) → c ∈ rows →
  filter (λ c', bridge_company_id c' = bridge_company_id c) rows = [c].
Proof.
  unfold client_ids. induction rows as [|d rows IH]; intros Hnd Hc;
    [by apply not_elem_of_nil in Hc|].
  rewrite fmap_cons in Hnd. apply NoDup_cons in Hnd as [Hd Hnd].
  apply elem_of_cons in Hc as [->|Hc].
  - rewrite filter_cons_True by done. f_equal.
    apply filter_Forall_none, Forall_forall. intros c' Hc' Heq.
    apply Hd. rewrite <-Heq. apply list_elem_of_fmap. eauto.
  - rewrite filter_cons_False; [by apply IH|].
    intros Heq. apply Hd. rewrite Heq. apply list_elem_of_fmap. eauto.
Qed.

End keyed.

(** ** Clients and months of the periodized frame *)

Section periodizer.
Variables (rows : list customer) (behavior_df : list event).

Lemma restricted_client (e : event) :
  e ∈ restrict_behavior rows behavior_df ↔
  e ∈ behavior_df ∧ ev_client e ∈ client_ids rows.
Proof. unfold restrict_behavior. rewrite list_elem_of_filter. tauto. Qed.

Lemma elem_of_ids_no_behavior (beh : list event) (e : event) :
  e ∈ ids_no_behavior rows beh ↔
  ∃ c, c ∈ rows ∧ (bridge_company_id c ∉ ev_client <$> beh)
       ∧ e = Event (bridge_company_id c) (became_customer_date c) 0%Z.
Proof.
  unfold ids_no_behavior. rewrite list_elem_of_fmap. split.
  - intros (c & -> & Hc). apply list_elem_of_filter in Hc as [Hd Hc].
    apply list_elem_of_difference in Hd as [_ Hno]. eauto.
  - intros (c & Hc & Hno & ->). exists c. split; [done|].
    apply list_elem_of_filter. split; [|done].
    apply list_elem_of_difference. split; [|done].
    apply list_elem_of_fmap. eauto.
Qed.

(** The clients of the augmented behaviour are those of the cohort. *)
Lemma augmented_ids (i : Z) :
  i ∈ ev_client <$> augmented_behavior rows behavior_df ↔ i ∈ client_ids rows.
Proof.
  unfold augmented_behavior. rewrite fmap_app, elem_of_app. split.
  - intros [(e & -> & He)%list_elem_of_fmap|(e & -> & He)%list_elem_of_fmap].
    + by apply restricted_client in He as [_ ?].
    + apply elem_of_ids_no_behavior in He as (c & Hc & _ & ->). simpl.
      apply list_elem_of_fmap. eauto.
  - intros Hi.
    destruct (decide (i ∈ ev_client <$> restrict_behavior rows behavior_df))
      as [Hin|Hno]; [by left|right].
    apply list_elem_of_fmap in Hi as (c & -> & Hc).
    apply list_elem_of_fmap.
    exists (Event (bridge_company_id c) (became_customer_date c) 0%Z).
    split; [done|]. apply elem_of_ids_no_behavior. eauto.
Qed.

End periodizer.

Lemma level_dates_months (behavior_df : list event) (m : Z) :
  m ∈ level_dates (groupby_sum behavior_df) ↔ m ∈ event_month <$> behavior_df.
Proof.
  unfold level_dates, groupby_sum, monthly_sums. rewrite list_elem_of_bind. split.
  - intros (blk & Hm & (i & -> & Hi)%list_elem_of_fmap). simpl in Hm.
    rewrite <-list_fmap_compose in Hm.
    apply list_elem_of_fmap in Hm as (m' & -> & Hm'). simpl.
    apply elem_of_sorted_unique, list_elem_of_fmap in Hm' as (e & -> & He).
    apply list_elem_of_filter in He as [_ He].
    apply list_elem_of_fmap. eauto.
  - intros (e & -> & He)%list_elem_of_fmap.
    eexists. split;
      [|apply list_elem_of_fmap_2, elem_of_sorted_unique, list_elem_of_fmap_2, He].
    simpl. rewrite <-list_fmap_compose. apply list_elem_of_fmap.
    exists (event_month e). split; [done|].
    apply elem_of_sorted_unique, list_elem_of_fmap. exists e. split; [done|].
    by apply list_elem_of_filter.
Qed.

(** ** The shared grid *)

Section grid.
Variable behavior_df : list event.

Lemma min_date_spec (a : Z) :
  min_date behavior_df = Some a →
  a ∈ event_month <$> behavior_df
  ∧ ∀ e, e ∈ behavior_df → (a ≤ event_month e)%Z.
Proof.
  intros [Hin Hle]%date_min_spec. split; [by apply level_dates_months|].
  intros e He. apply Hle, level_dates_months, list_elem_of_fmap. eauto.
Qed.

Lemma max_date_spec (b : Z) :
  max_date behavior_df = Some b →
  ∀ e, e ∈ behavior_df → (event_month e ≤ b)%Z.
Proof.
  intros Hb e He. eapply date_max_spec; [exact Hb|].
  apply level_dates_months, list_elem_of_fmap. eauto.
Qed.

Lemma period_grid_inv (grid : list Z) :
  period_grid behavior_df = inr grid →
  ∃ a b, min_date behavior_df = Some a ∧ max_date behavior_df = Some b
         ∧ (a ≤ b)%Z
         ∧ grid = (λ k, (a + Z.of_nat k)%Z) <$> seq 0 (Z.to_nat (b - a + 1)).
Proof.
  unfold period_grid, pd_date_range.
  destruct (min_date behavior_df) as [a|] eqn:Ha; [|done].
  destruct (max_date behavior_df) as [b|] eqn:Hb; [|done].
  intros [= <-]. exists a, b. repeat split; try done.
  apply min_date_spec in Ha as [(e & -> & He)%list_elem_of_fmap _].
  by eapply max_date_spec.
Qed.

Lemma period_grid_succeeds :
  behavior_df ≠ [] → succeeds (period_grid behavior_df).
Proof.
  intros Hne. unfold period_grid, min_date, max_date.
  assert (level_dates (groupby_sum behavior_df) ≠ []) as Hd.
  { destruct behavior_df as [|e beh]; [done|]. intros Hnil.
    assert (event_month e ∈ level_dates (groupby_sum (e :: beh))) as Hin
      by (apply level_dates_months; left).
    rewrite Hnil in Hin. by apply not_elem_of_nil in Hin. }
  destruct (date_min_is_Some _ Hd) as [a ->].
  destruct (date_max_is_Some _ Hd) as [b ->]. by eexists.
Qed.

Lemma period_grid_nonempty (grid : list Z) :
  period_grid behavior_df = inr grid → grid ≠ [].
Proof.
  intros (a & b & _ & _ & Hab & ->)%period_grid_inv.
  destruct (Z.to_nat (b - a + 1)) eqn:E; [lia|done].
Qed.

End grid.

(** ** The joined frame *)


Section joined.
Variables (rows : list customer) (behavior_df : list event).

Let behavior := augmented_behavior rows behavior_df.

Lemma join_blocks (grid : list Z) (beh : list event) :
  left_join rows (reindex grid (groupby_sum beh))
  = (λ i, (i, joined_block rows grid beh i)) <$> sorted_unique (ev_client <$> beh).
Proof.
  unfold left_join, reindex, groupby_sum.
  by rewrite <-!list_fmap_compose.
Qed.

Lemma reindex_clients (grid : list Z) (beh : list event) :
  (reindex grid (groupby_sum beh)).*1 = sorted_unique (ev_client <$> beh).
Proof.
  unfold reindex, groupby_sum. rewrite <-!list_fmap_compose.
  apply list_fmap_id.
Qed.

(** The assertion of line 148 always holds. *)
Lemma assertion_holds (grid : list Z) :
  length (remove_dups (reindex grid (groupby_sum behavior)).*1)
  = length (remove_dups (client_ids rows)).
Proof.
  rewrite reindex_clients. apply sorted_unique_length_ext.
  intros i. rewrite elem_of_sorted_unique. apply augmented_ids.
Qed.

Lemma joined_frame_inv (joined : list (Z * list joined_row)) :
  joined_frame rows behavior_df = inr joined →
  ∃ grid, period_grid behavior = inr grid
    ∧ joined = (λ i, (i, joined_block rows grid behavior i))
                 <$> sorted_unique (ev_client <$> behavior).
Proof.
  unfold joined_frame, periodized. fold behavior.
  destruct (period_grid behavior) as [e|grid]; [done|]. simpl.
  rewrite assertion_holds, Nat.eqb_refl. simpl.
  unfold join_demgeo. case_bool_decide; [|done].
  intros [= <-]. exists grid. split; [done|]. apply join_blocks.
Qed.

(** A frame is joined only to a table with one record per client. *)
Lemma joined_frame_NoDup (joined : list (Z * list joined_row)) :
  joined_frame rows behavior_df = inr joined → NoDup (client_ids rows).
Proof.
  unfold joined_frame, periodized.
  destruct (period_grid (augmented_behavior rows behavior_df)) as [e|grid];
    [done|]. simpl.
  destruct (py_assert _); [done|]. simpl.
  unfold join_demgeo. by case_bool_decide.
Qed.

Lemma augmented_nonempty : rows ≠ [] → behavior ≠ [].
Proof.
  destruct rows as [|c rows'] eqn:E; [done|]. intros _ Hnil.
  assert (bridge_company_id c ∈ ev_client <$> behavior) as Hin.
  { subst behavior. rewrite <-E. apply augmented_ids. rewrite E. left. }
  rewrite Hnil in Hin. by apply not_elem_of_nil in Hin.
Qed.

Lemma joined_frame_succeeds :
  rows ≠ [] → NoDup (client_ids rows) → succeeds (joined_frame rows behavior_df).
Proof.
  intros Hne Hnd. unfold joined_frame, periodized. fold behavior.
  destruct (period_grid_succeeds behavior (augmented_nonempty Hne)) as [grid ->].
  simpl. rewrite assertion_holds, Nat.eqb_refl. simpl.
  unfold join_demgeo. rewrite bool_decide_eq_true_2 by done. by eexists.
Qed.

Lemma joined_frame_duplicates :
  rows ≠ [] → ¬ NoDup (client_ids rows) →
  joined_frame rows behavior_df = inl NotImplementedError.
Proof.
  intros Hne Hdup. unfold joined_frame, periodized. fold behavior.
  destruct (period_grid_succeeds behavior (augmented_nonempty Hne)) as [grid ->].
  simpl. rewrite assertion_holds, Nat.eqb_refl. simpl.
  unfold join_demgeo. by rewrite bool_decide_eq_false_2.
Qed.

Lemma joined_block_unique (grid : list Z) (beh : list event) (c : customer) :
  NoDup (client_ids rows) → c ∈ rows →
  joined_block rows grid beh (bridge_company_id c)
  = (λ p, JoinedRow p (volume_at beh (bridge_company_id c) p)
                    (became_customer_date c) (churn_date c)) <$> grid.
Proof.
  intros Hnd Hc. unfold joined_block, reindex_last_level.
  rewrite filter_unique_id by done.
  rewrite list_fmap_bind. by apply bind_singleton_ext.
Qed.

Lemma client_rows_joined (joined : list (Z * list joined_row)) (grid : list Z)
    (c : customer) :
  joined_frame rows behavior_df = inr joined →
  period_grid behavior = inr grid →
  NoDup (client_ids rows) → c ∈ rows →
  client_rows (bridge_company_id c) joined
  = (λ p, JoinedRow p (volume_at behavior (bridge_company_id c) p)
                    (became_customer_date c) (churn_date c)) <$> grid.
Proof.
  intros (grid' & Hgrid & ->)%joined_frame_inv Hg Hnd Hc.
  rewrite Hg in Hgrid. injection Hgrid as <-.
  rewrite client_rows_keyed by apply NoDup_sorted_unique.
  rewrite decide_True.
  - by apply joined_block_unique.
  - apply elem_of_sorted_unique, augmented_ids, list_elem_of_fmap. eauto.
Qed.

End joined.

(** ** Active periods of one client on the grid *)

Lemma zip_with_fmap_same {A B C D : Type} (f : B → C → D) (g : A → B) (h : A → C)
    (l : list A) :
  zip_with f (g <$> l) (h <$> l) = (λ x, f (g x) (h x)) <$> l.
Proof. induction l as [|x l IH]; [done|]. csimpl. by rewrite IH. Qed.

Section active.
Variables (a : Z) (n : nat) (vol : Z → Z).
Variables (became : timestamp) (churn : option timestamp).

Let period (k : nat) : Z := (a + Z.of_nat k)%Z.
Let grid : list Z := period <$> seq 0 n.
Let jrows : list joined_row := (λ p, JoinedRow p (vol p) became churn) <$> grid.


Lemma cumsum_reached (col : option Z) (s len : nat) (acc : Z) :
  acc = match col with
        | Some m => Z.b2z (bool_decide (a ≤ m < a + Z.of_nat s)%Z)
        | None => 0%Z
        end →
  cumsum_from acc ((λ k, eq_period col (period k)) <$> seq s len)
  = (λ k, match col with
          | Some m => Z.b2z (reached a m (period k))
          | None => 0%Z
          end) <$> seq s len.
Proof.
  revert s acc. induction len as [|len IH]; intros s acc Hacc; [done|].
  simpl. rewrite IH.
  - f_equal. subst acc period. unfold reached. destruct col as [m|]; simpl; [|done].
    repeat case_bool_decide; simpl; lia.
  - subst acc period. destruct col as [m|]; simpl; [|done].
    repeat case_bool_decide; simpl; lia.
Qed.

Lemma became_flag_grid :
  became_flag jrows
  = (λ k, Z.b2z (reached a (ts_month became) (period k))) <$> seq 0 n.
Proof.
  unfold became_flag, jrows, grid. rewrite <-!list_fmap_compose.
  apply (cumsum_reached (Some (ts_month became))).
  rewrite bool_decide_eq_false_2; [done|lia].
Qed.

Lemma churn_flag_grid :
  churn_flag jrows = (λ k, Z.b2z (churn_reached a churn (period k))) <$> seq 0 n.
Proof.
  unfold churn_flag, jrows, grid, churn_reached. rewrite <-!list_fmap_compose.
  etrans; [apply (cumsum_reached (ts_month <$> churn) 0 n 0)|].
  - destruct churn; simpl; [|done].
    rewrite bool_decide_eq_false_2; [done|lia].
  - by destruct churn.
Qed.

(** Both counters stay in {0, 1}, where the bitwise reading of [&] and
    [~] is the boolean one. *)
Lemma active_mask_grid : active_mask jrows = (λ k, active_at a became churn (period k)) <$> seq 0 n.
Proof.
  unfold active_mask, active_flag.
  rewrite became_flag_grid, churn_flag_grid, zip_with_fmap_same.
  rewrite <-list_fmap_compose. apply list_fmap_ext. intros _ k _. simpl.
  unfold active_at.
  by destruct (reached _ _ _), (churn_reached _ _ _).
Qed.

Lemma active_periods_grid :
  active_periods jrows
  = (λ k, PeriodRow (period k) (vol (period k)) (bool_decide (is_Some churn)))
      <$> filter (λ k, active_at a became churn (period k) = true) (seq 0 n).
Proof.
  unfold active_periods. rewrite active_mask_grid.
  unfold jrows, grid. rewrite <-!list_fmap_compose.
  rewrite mask_select_fmap. by rewrite mask_select_pointwise.
Qed.

Lemma active_periods_date (p : Z) :
  p ∈ p_date <$> active_periods jrows ↔ p ∈ grid ∧ active_at a became churn p = true.
Proof.
  rewrite active_periods_grid, <-list_fmap_compose. unfold grid.
  rewrite !list_elem_of_fmap. split.
  - intros (k & -> & [Hact Hk]%list_elem_of_filter). simpl. eauto.
  - intros [(k & -> & Hk) Hact]. exists k. split; [done|].
    by apply list_elem_of_filter.
Qed.

Lemma active_periods_churned :
  Forall (λ r, p_churned r = bool_decide (is_Some churn)) (active_periods jrows).
Proof.
  rewrite active_periods_grid. apply Forall_fmap, Forall_forall. done.
Qed.

Lemma active_periods_volume :
  (∀ p, vol p = 0%Z) → Forall (λ r, p_volume r = 0%Z) (active_periods jrows).
Proof.
  intros Hv. rewrite active_periods_grid. apply Forall_fmap, Forall_forall.
  intros k _. apply Hv.
Qed.

(** A became-month before the first grid month is never matched. *)
Lemma became_before_grid :
  (ts_month became < a)%Z →
  Forall (λ z, z = 0%Z) (became_flag jrows)
  ∧ Forall (λ b, b = false) (active_mask jrows)
  ∧ active_periods jrows = [].
Proof.
  intros Hlt.
  assert (∀ p, reached a (ts_month became) p = false) as Hr
    by (intros p; apply bool_decide_eq_false_2; lia).
  split; [|split].
  - rewrite became_flag_grid. apply Forall_fmap, Forall_forall.
    intros k _. simpl. by rewrite Hr.
  - rewrite active_mask_grid. apply Forall_fmap, Forall_forall.
    intros k _. simpl. unfold active_at. by rewrite Hr.
  - unfold active_periods. apply mask_select_all_false.
    rewrite active_mask_grid. apply Forall_fmap, Forall_forall.
    intros k _. simpl. unfold active_at. by rewrite Hr.
Qed.

End active.

(** ** The run as a whole *)

Lemma lookup_term_pos (filter_rows : option (dict string)) (term : nat) :
  lookup_term filter_rows = inr term → term ≠ 0.
Proof.
  unfold lookup_term. destruct filter_rows as [d|]; [|done].
  destruct (dict_get _ d) as [v|]; [|done].
  destruct (dict_get v term_dict) as [t|] eqn:E; [|done].
  intros [= <-]. unfold term_dict in E. cbn [dict_get] in E.
  repeat (case_decide; [injection E as <-; lia|]). done.
Qed.

Lemma active_periods_nil : active_periods [] = [].
Proof. done. Qed.

Lemma segment_nil (term : nat) (w : Z) : segment term w [] = [].
Proof.
  unfold segment, trimmed, keep_months. by rewrite mask_select_nil_r.
Qed.

Section run.
Variables (demgeo_df : demgeo) (behavior_df : list event).
Variables (filter_rows : option (dict string)) (rolling_window : option Z).
Variables (include_term : bool) (include_month : pyflag).
Variable split_by_date : option timestamp.

Let run := process_behavior demgeo_df behavior_df filter_rows rolling_window
                            include_term include_month split_by_date.

Lemma process_behavior_inv (out : list term_row) :
  run = inr out →
  consistency_check demgeo_df = true
  ∧ ∃ rows joined term w,
      cohort_rows demgeo_df filter_rows = inr rows
      ∧ joined_frame rows behavior_df = inr joined
      ∧ lookup_term filter_rows = inr term
      ∧ behavior_volume_col_rm rolling_window = Some w
      ∧ out = active_frame joined ≫= λ blk,
                pivot include_term include_month split_by_date blk.1
                      (segment term w blk.2).
Proof.
  unfold run, process_behavior, transform.
  destruct (consistency_check demgeo_df); [|done].
  destruct (cohort_rows demgeo_df filter_rows) as [|rows] eqn:Hr; [done|]. simpl.
  destruct (joined_frame rows behavior_df) as [|joined] eqn:Hj; [done|]. simpl.
  destruct (lookup_term filter_rows) as [|term] eqn:Ht; [done|]. simpl.
  destruct (drop_keep_month (active_frame joined)) as [|[]]; [done|]. simpl.
  destruct (behavior_volume_col_rm rolling_window) as [w|] eqn:Hw; [|done]. simpl.
  intros [= <-]. split; [done|]. by exists rows, joined, term, w.
Qed.

Lemma client_rows_active (joined : list (Z * list joined_row)) (grid : list Z)
    (rows : list customer) (beh : list event) (c : Z) :
  joined = (λ i, (i, joined_block rows grid beh i))
             <$> sorted_unique (ev_client <$> beh) →
  client_rows c (active_frame joined) = active_periods (client_rows c joined).
Proof.
  intros ->. unfold active_frame. rewrite <-list_fmap_compose.
  rewrite (client_rows_keyed (λ i, active_periods (joined_block rows grid beh i)))
    by apply NoDup_sorted_unique.
  rewrite (client_rows_keyed (joined_block rows grid beh))
    by apply NoDup_sorted_unique.
  by case_decide.
Qed.

(** The emitted rows of a client are the pivot of its own active periods. *)
Lemma process_behavior_rows (out : list term_row) :
  run = inr out →
  ∃ rows joined term w,
    cohort_rows demgeo_df filter_rows = inr rows
    ∧ joined_frame rows behavior_df = inr joined
    ∧ lookup_term filter_rows = inr term
    ∧ behavior_volume_col_rm rolling_window = Some w
    ∧ ∀ c, rows_of c out
           = pivot include_term include_month split_by_date c
                   (segment term w (client_rows c (active_frame joined))).
Proof.
  intros (_ & rows & joined & term & w & Hrows & Hjoined & Hterm & Hw & ->)
    %process_behavior_inv.
  exists rows, joined, term, w. repeat (split; [done|]). intros c.
  pose proof Hjoined as (grid & Hgrid & Hj)%joined_frame_inv.
  rewrite (client_rows_active _ _ _ _ _ Hj).
  rewrite Hj at 1. unfold active_frame, rows_of.
  rewrite <-list_fmap_compose, list_fmap_bind.
  rewrite (filter_bind_keyed o_client) by
    (apply NoDup_sorted_unique || (intros i r Hr; by eapply pivot_client)).
  rewrite Hj, client_rows_keyed by apply NoDup_sorted_unique.
  case_decide; [done|]. by rewrite active_periods_nil, segment_nil.
Qed.




End run.

(** ** The consistency check *)

Section consistency.

Lemma ts_leb_false (x y : timestamp) : ts_leb x y = false ↔ ts_lt y x.
Proof.
  unfold ts_leb, ts_lt. destruct x as [mx ox], y as [my oy]. simpl.
  rewrite orb_false_iff, andb_false_iff, Z.ltb_ge, Z.eqb_neq, Z.leb_gt. lia.
Qed.

Lemma ts_leb_month (x y : timestamp) :
  ts_leb x y = true → (ts_month x ≤ ts_month y)%Z.
Proof.
  unfold ts_leb. rewrite orb_true_iff, andb_true_iff, Z.ltb_lt, Z.eqb_eq. lia.
Qed.

Lemma consistency_check_true (demgeo_df : demgeo) :
  consistency_check demgeo_df = true ↔
  ∀ c ch, c ∈ dg_rows demgeo_df → churn_date c = Some ch →
          ¬ ts_lt ch (became_customer_date c).
Proof.
  unfold consistency_check. induction (dg_rows demgeo_df) as [|d rows IH].
  - split; [|done]. by intros _ c ch ?%not_elem_of_nil.
  - destruct (decide (churn_notnull d)) as [Hsome|Hnone].
    + rewrite filter_cons_True by done. destruct Hsome as [ch0 Hd].
      simpl. unfold churn_ge_became at 1. rewrite Hd, andb_true_iff, IH.
      split.
      * intros [Hle Hrest] c ch [->|Hc]%elem_of_cons Hch.
        -- rewrite Hd in Hch. injection Hch as <-.
           rewrite <-ts_leb_false. by rewrite Hle.
        -- by apply Hrest.
      * intros Hall. split.
        -- destruct (ts_leb (became_customer_date d) ch0) eqn:E; [done|].
           apply ts_leb_false in E. exfalso. eapply Hall; [left|exact Hd|exact E].
        -- intros c ch Hc. apply Hall. by right.
    + rewrite filter_cons_False by done. rewrite IH. split.
      * intros Hrest c ch [->|Hc]%elem_of_cons Hch; [|by apply Hrest].
        exfalso. apply Hnone. by exists ch.
      * intros Hall c ch Hc. apply Hall. by right.
Qed.


Lemma filter_rows_origin (d : dict string) (df : demgeo) (c : customer) :
  c ∈ dg_rows (foldl filter_step df d) →
  ∃ c0, c0 ∈ dg_rows df ∧ same_lifecycle c0 c.
Proof.
  revert df. induction d as [|kv d IH]; intros df Hc; simpl in Hc.
  - exists c. by repeat split.
  - apply IH in Hc as (c1 & Hc1 & H1). simpl in Hc1.
    apply list_elem_of_fmap in Hc1 as (c0 & -> & [_ Hc0]%list_elem_of_filter).
    exists c0. split; [done|]. exact H1.
Qed.

Lemma cohort_rows_origin (demgeo_df : demgeo) (filter_rows : option (dict string))
    (rows : list customer) (c : customer) :
  cohort_rows demgeo_df filter_rows = inr rows → c ∈ rows →
  ∃ c0, c0 ∈ dg_rows demgeo_df ∧ same_lifecycle c0 c.
Proof.
  unfold cohort_rows, select_columns. case_decide; [|done]. simpl.
  destruct filter_rows as [d|]; [|done]. simpl. intros [= <-] Hc.
  apply filter_rows_origin in Hc as (c1 & Hc1 & H1). simpl in Hc1.
  apply list_elem_of_fmap in Hc1 as (c0 & -> & Hc0).
  exists c0. split; [done|]. exact H1.
Qed.

Lemma cohort_rows_consistent (demgeo_df : demgeo)
    (filter_rows : option (dict string)) (rows : list customer) (c : customer)
    (ch : timestamp) :
  consistency_check demgeo_df = true →
  cohort_rows demgeo_df filter_rows = inr rows → c ∈ rows →
  churn_date c = Some ch →
  (ts_month (became_customer_date c) ≤ ts_month ch)%Z.
Proof.
  intros Hok Hrows Hc Hch.
  destruct (cohort_rows_origin _ _ _ _ Hrows Hc) as (c0 & Hc0 & _ & Hb & Hcd).
  rewrite <-Hb. rewrite <-Hcd in Hch.
  apply ts_leb_month.
  destruct (ts_leb (became_customer_date c0) ch) eqn:E; [done|].
  apply ts_leb_false in E.
  by destruct (proj1 (consistency_check_true demgeo_df) Hok c0 ch Hc0 Hch).
Qed.

End consistency.

(** * Claims *)

(** C8: a record whose non-null churn date is strictly earlier than its
    became date makes [process_behavior] raise [ValueError], whatever the
    other arguments are and before anything else is computed; when no record
    is in that case the check changes nothing, the run being exactly the
    transformation of the same tables. *)
Theorem consistency_check_gate (demgeo_df : demgeo) (behavior_df : list event)
    (filter_rows : option (dict string)) (rolling_window : option Z)
    (include_term : bool) (include_month : pyflag)
    (split_by_date : option timestamp) :
  ((∃ c ch, c ∈ dg_rows demgeo_df ∧ churn_date c = Some ch
            ∧ ts_lt ch (became_customer_date c)) →
   process_behavior demgeo_df behavior_df filter_rows rolling_window
                    include_term include_month split_by_date
   = inl ValueError)
  ∧ ((∀ c ch, c ∈ dg_rows demgeo_df → churn_date c = Some ch →
              ¬ ts_lt ch (became_customer_date c)) →
     process_behavior demgeo_df behavior_df filter_rows rolling_window
                      include_term include_month split_by_date
     = transform demgeo_df behavior_df filter_rows rolling_window
                 include_term include_month split_by_date).
Proof.
  unfold process_behavior. split.
  - intros (c & ch & Hc & Hch & Hlt).
    destruct (consistency_check demgeo_df) eqn:E; [|done].
    by destruct (proj1 (consistency_check_true demgeo_df) E c ch Hc Hch).
  - intros Hall. by rewrite (proj2 (consistency_check_true demgeo_df) Hall).
Qed.

Lemma consistency_check_gate_witness :
  process_behavior (scenario_demgeo (Some (Timestamp (jan - 1) 20))) scenario_behavior
                   trimestral (Some 2%Z) true (PyBool true) None
  = inl ValueError
  ∧ process_behavior (scenario_demgeo (Some (Timestamp (jan + 3) 5))) scenario_behavior
                     trimestral (Some 2%Z) true (PyBool true) None
    = transform (scenario_demgeo (Some (Timestamp (jan + 3) 5))) scenario_behavior
                trimestral (Some 2%Z) true (PyBool true) None.
Proof.
  split.
  - apply (consistency_check_gate
             (scenario_demgeo (Some (Timestamp (jan - 1) 20))) scenario_behavior
             trimestral (Some 2%Z) true (PyBool true) None).
    eexists _, _. split; [left|]. split; [reflexivity|]. left. vm_compute. reflexivity.
  - apply (consistency_check_gate
             (scenario_demgeo (Some (Timestamp (jan + 3) 5))) scenario_behavior
             trimestral (Some 2%Z) true (PyBool true) None).
    intros c ch [->|Hc]%elem_of_cons; [|by apply not_elem_of_nil in Hc].
    intros [= <-] [H|[H _]]; vm_compute in H; discriminate H.
Defined.

(** C5 (defect in the code): with [rolling_window] disabled ([None] or 0) no
    run returns a table: the name [behavior_volume_col_rm], bound only under
    [if rolling_window:], is read when the aggregation dictionary is built,
    so a run that passes every earlier step stops with [UnboundLocalError]. *)
Theorem rolling_window_disabled_raises :
  (∀ demgeo_df behavior_df filter_rows rolling_window include_term include_month
     split_by_date,
     rolling_window = None ∨ rolling_window = Some 0%Z →
     raises (process_behavior demgeo_df behavior_df filter_rows rolling_window
                              include_term include_month split_by_date))
  ∧ process_behavior (scenario_demgeo None) scenario_behavior trimestral None
                     true (PyBool true) None
    = inl UnboundLocalError
  ∧ process_behavior (scenario_demgeo None) scenario_behavior trimestral (Some 0%Z)
                     true (PyBool true) None
    = inl UnboundLocalError.
Proof.
  split; [|split; vm_compute; reflexivity].
  intros demgeo_df behavior_df filter_rows rolling_window it im sd Hw.
  assert (behavior_volume_col_rm rolling_window = None) as Hrm
    by (by destruct Hw as [-> | ->]).
  unfold raises, process_behavior, transform.
  destruct (consistency_check demgeo_df); [|by eexists].
  destruct (cohort_rows demgeo_df filter_rows) as [|rows]; [by eexists|]. simpl.
  destruct (joined_frame rows behavior_df) as [|joined]; [by eexists|]. simpl.
  destruct (lookup_term filter_rows) as [|term]; [by eexists|]. simpl.
  destruct (drop_keep_month (active_frame joined)); [by eexists|]. simpl.
  rewrite Hrm. by eexists.
Qed.

Lemma rolling_window_disabled_raises_witness :
  raises (process_behavior (scenario_demgeo None) scenario_behavior trimestral None
                           true (PyBool true) None).
Proof.
  apply (proj1 rolling_window_disabled_raises). by left.
Defined.

(** C6 (defect in the code): with the filter mapping [None] or empty no run
    returns a table. [None] is iterated by the loop of line 117
    ([TypeError]); an empty mapping has no ['last_recurrence'] entry for the
    term lookup of line 176 ([KeyError]). *)
Theorem filter_rows_none_or_empty_raises :
  (∀ demgeo_df behavior_df rolling_window include_term include_month split_by_date,
     raises (process_behavior demgeo_df behavior_df None rolling_window
                              include_term include_month split_by_date)
     ∧ raises (process_behavior demgeo_df behavior_df (Some []) rolling_window
                                include_term include_month split_by_date))
  ∧ process_behavior (scenario_demgeo None) scenario_behavior None (Some 2%Z)
                     true (PyBool true) None
    = inl TypeError
  ∧ process_behavior (scenario_demgeo None) scenario_behavior (Some []) (Some 2%Z)
                     true (PyBool true) None
    = inl KeyError.
Proof.
  split; [|split; vm_compute; reflexivity].
  intros demgeo_df behavior_df rolling_window it im sd.
  unfold raises, process_behavior, transform.
  destruct (consistency_check demgeo_df); [|split; by eexists].
  split.
  - unfold cohort_rows, select_columns. case_decide; by eexists.
  - destruct (cohort_rows demgeo_df (Some [])) as [|rows]; [by eexists|]. simpl.
    destruct (joined_frame rows behavior_df) as [|joined]; by eexists.
Qed.

(** C2: in a run that returns a table, each client has as many term rows
    as its number of retained active periods divided (floor) by the term
    length; a client with fewer active periods than one term has none. *)
Theorem term_row_count (demgeo_df : demgeo) (behavior_df : list event)
    (filter_rows : option (dict string)) (rolling_window : option Z)
    (include_term : bool) (include_month : pyflag)
    (split_by_date : option timestamp)
    (out : list term_row) (rows : list customer)
    (joined : list (Z * list joined_row)) (term : nat) (c : Z) :
  process_behavior demgeo_df behavior_df filter_rows rolling_window
                   include_term include_month split_by_date = inr out →
  cohort_rows demgeo_df filter_rows = inr rows →
  joined_frame rows behavior_df = inr joined →
  lookup_term filter_rows = inr term →
  length (rows_of c out) = length (client_rows c (active_frame joined)) / term
  ∧ (length (client_rows c (active_frame joined)) < term → rows_of c out = []).
Proof.
  intros Hrun Hrows Hjoined Hterm.
  apply process_behavior_rows in Hrun
    as (rows' & joined' & term' & w & Hrows' & Hjoined' & Hterm' & _ & Hout).
  rewrite Hrows in Hrows'. injection Hrows' as <-.
  rewrite Hjoined in Hjoined'. injection Hjoined' as <-.
  rewrite Hterm in Hterm'. injection Hterm' as <-.
  assert (length (rows_of c out)
          = length (client_rows c (active_frame joined)) / term) as Hlen.
  { rewrite Hout. apply customer_rows_length. by eapply lookup_term_pos. }
  split; [done|]. intros Hlt.
  rewrite Nat.div_small in Hlen by done.
  by apply nil_length_inv.
Qed.

Lemma term_row_count_witness :
  (length (rows_of 7 cohort_out)
   = length (client_rows 7 (active_frame cohort_joined)) / 3
   ∧ (length (client_rows 7 (active_frame cohort_joined)) < 3
      → rows_of 7 cohort_out = []))
  ∧ (length (rows_of 8 cohort_out)
     = length (client_rows 8 (active_frame cohort_joined)) / 3
     ∧ (length (client_rows 8 (active_frame cohort_joined)) < 3
        → rows_of 8 cohort_out = [])).
Proof.
  split.
  - apply (term_row_count cohort_demgeo cohort_behavior trimestral (Some 2%Z) true
             (PyBool true) None cohort_out cohort_selected cohort_joined 3 7);
      vm_compute; reflexivity.
  - apply (term_row_count cohort_demgeo cohort_behavior trimestral (Some 2%Z) true
             (PyBool true) None cohort_out cohort_selected cohort_joined 3 8);
      vm_compute; reflexivity.
Defined.

(** The active periods of a client with one demographic record carry that
    record's churn status. *)
Lemma client_rows_active_churned (rows : list customer) (behavior_df : list event)
    (joined : list (Z * list joined_row)) (c : customer) :
  joined_frame rows behavior_df = inr joined →
  NoDup (client_ids rows) → c ∈ rows →
  Forall (λ r, p_churned r = bool_decide (is_Some (churn_date c)))
         (client_rows (bridge_company_id c) (active_frame joined)).
Proof.
  intros Hjoined Hnd Hc.
  pose proof Hjoined as (grid & Hgrid & Hj)%joined_frame_inv.
  rewrite (client_rows_active _ _ _ _ _ Hj).
  rewrite (client_rows_joined _ _ _ grid c Hjoined Hgrid Hnd Hc).
  apply period_grid_inv in Hgrid as (a & b & _ & _ & _ & ->).
  apply active_periods_churned.
Qed.

(** C1: in a run that returns a table, the term rows of a client come in
    term order; for a churned client with at least one row, the last row has
    [churned = 1] and every other row has [churned = 0]; for a client that
    never churned every row has [churned = 0]. *)
Theorem churn_label_on_last_term (demgeo_df : demgeo) (behavior_df : list event)
    (filter_rows : option (dict string)) (rolling_window : option Z)
    (include_term : bool) (include_month : pyflag)
    (split_by_date : option timestamp)
    (out : list term_row) (rows : list customer) (c : customer) :
  process_behavior demgeo_df behavior_df filter_rows rolling_window
                   include_term include_month split_by_date = inr out →
  cohort_rows demgeo_df filter_rows = inr rows →
  NoDup (client_ids rows) →
  c ∈ rows →
  let mine := rows_of (bridge_company_id c) out in
  o_term_index <$> mine = Z.of_nat <$> seq 0 (length mine)
  ∧ (is_Some (churn_date c) → mine ≠ [] →
     ∃ init last, mine = init ++ [last]
       ∧ Forall (λ r, o_churned r = 0%Z) init ∧ o_churned last = 1%Z)
  ∧ (churn_date c = None → Forall (λ r, o_churned r = 0%Z) mine).
Proof.
  intros Hrun Hrows Hnd Hc mine.
  apply process_behavior_rows in Hrun
    as (rows' & joined & term & w & Hrows' & Hjoined & Hterm & _ & Hout).
  rewrite Hrows in Hrows'. injection Hrows' as <-.
  pose proof (lookup_term_pos _ _ Hterm) as Hpos.
  pose proof (client_rows_active_churned _ _ _ c Hjoined Hnd Hc) as Hch.
  subst mine. rewrite Hout. split; [|split].
  - by apply customer_rows_index.
  - intros Hsome Hne. apply customer_rows_churned; [done| |done].
    eapply Forall_impl; [exact Hch|]. intros r ->. by apply bool_decide_eq_true_2.
  - intros Hnone. apply customer_rows_never_churned; [done|].
    eapply Forall_impl; [exact Hch|]. intros r ->.
    apply bool_decide_eq_false_2. rewrite Hnone. by intros [? ?].
Qed.

Lemma churn_label_on_last_term_witness :
  let mine := rows_of 9 cohort_out in
  o_term_index <$> mine = Z.of_nat <$> seq 0 (length mine)
  ∧ (is_Some (Some (Timestamp (jan + 3) 5)) → mine ≠ [] →
     ∃ init last, mine = init ++ [last]
       ∧ Forall (λ r, o_churned r = 0%Z) init ∧ o_churned last = 1%Z)
  ∧ (Some (Timestamp (jan + 3) 5) = None → Forall (λ r, o_churned r = 0%Z) mine).
Proof.
  apply (churn_label_on_last_term cohort_demgeo cohort_behavior trimestral (Some 2%Z)
           true (PyBool true) None cohort_out cohort_selected
           (Customer 9 (Timestamp jan 0) (Some (Timestamp (jan + 3) 5)) [])).
  - vm_compute; reflexivity.
  - vm_compute; reflexivity.
  - apply (bool_decide_unpack _). vm_compute. exact I.
  - right. right. left.
Defined.

(** C10: a client whose became-month is strictly earlier than the earliest
    bucketed event month of the whole behaviour table never sees its became
    flag raised: every grid period of the client is inactive and the client
    has no row in the table a run returns, whatever events it has on the
    grid. *)
Theorem became_before_first_month (demgeo_df : demgeo) (behavior_df : list event)
    (filter_rows : option (dict string)) (rolling_window : option Z)
    (include_term : bool) (include_month : pyflag)
    (split_by_date : option timestamp)
    (out : list term_row) (rows : list customer)
    (joined : list (Z * list joined_row)) (first_month : Z) (c : customer) :
  process_behavior demgeo_df behavior_df filter_rows rolling_window
                   include_term include_month split_by_date = inr out →
  cohort_rows demgeo_df filter_rows = inr rows →
  joined_frame rows behavior_df = inr joined →
  min_date (augmented_behavior rows behavior_df) = Some first_month →
  NoDup (client_ids rows) →
  c ∈ rows →
  (ts_month (became_customer_date c) < first_month)%Z →
  let mine := client_rows (bridge_company_id c) joined in
  mine ≠ []
  ∧ Forall (λ z, z = 0%Z) (became_flag mine)
  ∧ Forall (λ b, b = false) (active_mask mine)
  ∧ client_rows (bridge_company_id c) (active_frame joined) = []
  ∧ rows_of (bridge_company_id c) out = [].
Proof.
  intros Hrun Hrows Hjoined Hmin Hnd Hc Hlt mine.
  apply process_behavior_rows in Hrun
    as (rows' & joined' & term & w & Hrows' & Hjoined' & Hterm & _ & Hout).
  rewrite Hrows in Hrows'. injection Hrows' as <-.
  rewrite Hjoined in Hjoined'. injection Hjoined' as <-.
  pose proof Hjoined as (grid & Hgrid & Hj)%joined_frame_inv.
  pose proof (period_grid_nonempty _ _ Hgrid) as Hne.
  assert (client_rows (bridge_company_id c) (active_frame joined)
          = active_periods mine) as Hact by apply (client_rows_active _ _ _ _ _ Hj).
  rewrite Hout, Hact. subst mine.
  rewrite (client_rows_joined _ _ _ grid c Hjoined Hgrid Hnd Hc) in *.
  apply period_grid_inv in Hgrid as (a & b & Ha & _ & _ & ->).
  rewrite Hmin in Ha. injection Ha as <-.
  destruct (became_before_grid first_month (Z.to_nat (b - first_month + 1))
              (volume_at (augmented_behavior rows behavior_df) (bridge_company_id c))
              (became_customer_date c) (churn_date c) Hlt) as (H1 & H2 & H3).
  split; [|split; [done|split; [done|split; [done|]]]].
  - intros Hnil. apply fmap_nil_inv in Hnil. done.
  - rewrite H3, segment_nil. done.
Qed.

Lemma became_before_first_month_witness :
  let mine := client_rows 5 cohort_joined in
  mine ≠ []
  ∧ Forall (λ z, z = 0%Z) (became_flag mine)
  ∧ Forall (λ b, b = false) (active_mask mine)
  ∧ client_rows 5 (active_frame cohort_joined) = []
  ∧ rows_of 5 cohort_out = [].
Proof.
  apply (became_before_first_month cohort_demgeo cohort_behavior trimestral
           (Some 2%Z) true (PyBool true) None cohort_out cohort_selected
           cohort_joined jan (Customer 5 (Timestamp (jan - 2) 7) None [])).
  - vm_compute; reflexivity.
  - vm_compute; reflexivity.
  - vm_compute; reflexivity.
  - vm_compute; reflexivity.
  - apply (bool_decide_unpack _). vm_compute. exact I.
  - right. right. right. left.
  - vm_compute; reflexivity.
Defined.

Lemma elem_of_grid (a b x : Z) :
  x ∈ (λ k, (a + Z.of_nat k)%Z) <$> seq 0 (Z.to_nat (b - a + 1)) ↔ (a ≤ x ≤ b)%Z.
Proof.
  rewrite list_elem_of_fmap. split.
  - intros (k & -> & Hk%elem_of_seq). lia.
  - intros Hx. exists (Z.to_nat (x - a)). rewrite elem_of_seq. lia.
Qed.

(** C3, as the code has it: a period is retained for a client exactly when
    it is a grid period, the client's became-month is itself a grid month at
    or before it, and, for a churned client, the churn-month comes strictly
    after it. A became-month off the grid never raises the flag. *)
Theorem active_window (demgeo_df : demgeo) (behavior_df : list event)
    (filter_rows : option (dict string)) (rows : list customer)
    (joined : list (Z * list joined_row)) (grid : list Z) (c : customer) (p : Z) :
  consistency_check demgeo_df = true →
  cohort_rows demgeo_df filter_rows = inr rows →
  joined_frame rows behavior_df = inr joined →
  period_grid (augmented_behavior rows behavior_df) = inr grid →
  NoDup (client_ids rows) →
  c ∈ rows →
  p ∈ p_date <$> client_rows (bridge_company_id c) (active_frame joined)
  ↔ p ∈ grid
    ∧ ts_month (became_customer_date c) ∈ grid
    ∧ (ts_month (became_customer_date c) ≤ p)%Z
    ∧ match churn_date c with
      | Some ch => (p < ts_month ch)%Z
      | None => True
      end.
Proof.
  intros Hok Hrows Hjoined Hgrid Hnd Hc.
  pose proof Hjoined as (grid' & Hgrid' & Hj)%joined_frame_inv.
  rewrite Hgrid in Hgrid'. injection Hgrid' as <-.
  rewrite (client_rows_active _ _ _ _ _ Hj).
  rewrite (client_rows_joined _ _ _ grid c Hjoined Hgrid Hnd Hc).
  apply period_grid_inv in Hgrid as (a & b & _ & _ & Hab & ->).
  rewrite active_periods_date, !elem_of_grid.
  unfold active_at, churn_reached, reached.
  rewrite andb_true_iff, negb_true_iff, bool_decide_eq_true.
  destruct (churn_date c) as [ch|] eqn:Hch.
  - pose proof (cohort_rows_consistent _ _ _ _ _ Hok Hrows Hc Hch).
    rewrite bool_decide_eq_false. lia.
  - intuition lia.
Qed.

Lemma active_window_witness :
  (jan + 1)%Z ∈ p_date <$> client_rows 9 (active_frame cohort_joined)
  ↔ (jan + 1)%Z ∈ cohort_grid
    ∧ jan ∈ cohort_grid
    ∧ (jan ≤ jan + 1)%Z
    ∧ (jan + 1 < jan + 3)%Z.
Proof.
  apply (active_window cohort_demgeo cohort_behavior trimestral cohort_selected
           cohort_joined cohort_grid
           (Customer 9 (Timestamp jan 0) (Some (Timestamp (jan + 3) 5)) [])
           (jan + 1)%Z).
  - vm_compute; reflexivity.
  - vm_compute; reflexivity.
  - vm_compute; reflexivity.
  - vm_compute; reflexivity.
  - apply (bool_decide_unpack _). vm_compute. exact I.
  - right. right. left.
Defined.

(** C3, counterexample: client 5 of the cohort became a client two months
    before the first grid month and never churned; January is a grid period
    at or after its became-month, and it is not retained. *)
Lemma active_window_counterexample :
  cohort_rows cohort_demgeo trimestral = inr cohort_selected
  ∧ joined_frame cohort_selected cohort_behavior = inr cohort_joined
  ∧ period_grid (augmented_behavior cohort_selected cohort_behavior) = inr cohort_grid
  ∧ Customer 5 (Timestamp (jan - 2) 7) None [] ∈ cohort_selected
  ∧ jan ∈ cohort_grid
  ∧ ¬ (jan ∈ p_date <$> client_rows 5 (active_frame cohort_joined)
       ↔ (ts_month (Timestamp (jan - 2) 7) ≤ jan)%Z).
Proof.
  repeat split; try (vm_compute; reflexivity).
  - right. right. right. left.
  - left.
  - intros [_ Hin]. assert (564 - 2 ≤ 564)%Z as Hle by lia.
    apply Hin in Hle. vm_compute in Hle. by apply not_elem_of_nil in Hle.
Qed.

(** ** Zero-fill *)

Lemma filter_fmap_key {A B : Type} (f : A → B) (P : B → Prop) `{∀ y, Decision (P y)}
    (l : list A) :
  filter P (f <$> l) = f <$> filter (λ x, P (f x)) l.
Proof.
  induction l as [|x l IH]; [done|].
  rewrite fmap_cons, !filter_cons, IH. by case_decide.
Qed.

Lemma cell_get_sums_zero (evs : list event) (months : list Z) (p : Z) :
  Forall (λ e, total_issues e = 0%Z) evs →
  default 0%Z
    (cell_get p ((λ m, (m, sum_int64 (total_issues <$> filter (λ e, event_month e = m) evs)))
                   <$> months)) = 0%Z.
Proof.
  intros Hz. induction months as [|m months IH]; [done|].
  rewrite fmap_cons. simpl. case_decide; [|done]. simpl.
  apply sum_int64_zero, Forall_fmap.
  apply Forall_forall. intros e [_ He]%list_elem_of_filter.
  by apply (proj1 (Forall_forall _ _) Hz).
Qed.

Lemma volume_at_zero (behavior_df : list event) (i p : Z) :
  Forall (λ e, total_issues e = 0%Z) (filter (λ e, ev_client e = i) behavior_df) →
  volume_at behavior_df i p = 0%Z.
Proof. intros Hz. unfold volume_at, monthly_sums. by apply cell_get_sums_zero. Qed.

Section zero_fill.
Variables (rows : list customer) (behavior_df : list event).

Let restricted := restrict_behavior rows behavior_df.
Let synthetic := ids_no_behavior rows restricted.

Lemma restricted_of_client (i : Z) :
  i ∉ ev_client <$> behavior_df → filter (λ e, ev_client e = i) restricted = [].
Proof.
  intros Hno. apply filter_Forall_none, Forall_forall.
  intros e [He _]%restricted_client Heq. apply Hno.
  rewrite <-Heq. by apply list_elem_of_fmap_2.
Qed.

Lemma synthetic_of_client (c : customer) :
  NoDup (client_ids rows) → c ∈ rows →
  bridge_company_id c ∉ ev_client <$> behavior_df →
  filter (λ e, ev_client e = bridge_company_id c) synthetic
  = [Event (bridge_company_id c) (became_customer_date c) 0%Z].
Proof.
  intros Hnd Hc Hno. unfold synthetic, ids_no_behavior.
  rewrite filter_fmap_key. simpl.
  rewrite list_filter_filter.
  rewrite (list_filter_iff _ (λ c', bridge_company_id c' = bridge_company_id c)).
  - by rewrite filter_unique_id.
  - intros c'. split; [tauto|]. intros Heq. split; [done|]. rewrite Heq.
    rewrite list_elem_of_difference. split; [by apply list_elem_of_fmap_2|].
    intros (e & Heq' & [He _]%restricted_client)%list_elem_of_fmap.
    apply Hno. rewrite Heq'. by apply list_elem_of_fmap_2.
Qed.

Lemma synthetic_none (c : customer) :
  c ∈ rows → bridge_company_id c ∈ ev_client <$> behavior_df →
  filter (λ e, ev_client e = bridge_company_id c) synthetic = [].
Proof.
  intros Hc (e & Heq & He)%list_elem_of_fmap.
  apply filter_Forall_none, Forall_forall.
  intros e' (c' & _ & Hno & ->)%elem_of_ids_no_behavior Heq'. simpl in Heq'.
  apply Hno. rewrite Heq', Heq. apply list_elem_of_fmap_2.
  apply restricted_client. split; [done|].
  rewrite <-Heq. by apply list_elem_of_fmap_2.
Qed.

Lemma augmented_of_client (c : customer) :
  NoDup (client_ids rows) → c ∈ rows →
  bridge_company_id c ∉ ev_client <$> behavior_df →
  filter (λ e, ev_client e = bridge_company_id c)
         (augmented_behavior rows behavior_df)
  = [Event (bridge_company_id c) (became_customer_date c) 0%Z].
Proof.
  intros Hnd Hc Hno. unfold augmented_behavior.
  rewrite filter_app. fold restricted. rewrite restricted_of_client by done.
  by apply synthetic_of_client.
Qed.

(** Every client of the cohort has its block of grid periods. *)
Lemma periodized_blocks (frame : list (Z * list (Z * Z))) (c : customer) :
  periodized (augmented_behavior rows behavior_df) = inr frame →
  c ∈ rows →
  ∃ grid, period_grid (augmented_behavior rows behavior_df) = inr grid
    ∧ (bridge_company_id c,
       (λ p, (p, volume_at (augmented_behavior rows behavior_df)
                           (bridge_company_id c) p)) <$> grid) ∈ frame.
Proof.
  unfold periodized.
  destruct (period_grid (augmented_behavior rows behavior_df)) as [|grid] eqn:Hg;
    [done|].
  simpl. intros [= <-] Hc. exists grid. split; [done|].
  unfold reindex, groupby_sum. rewrite <-list_fmap_compose.
  apply list_elem_of_fmap. exists (bridge_company_id c). split; [done|].
  apply elem_of_sorted_unique, augmented_ids. by apply list_elem_of_fmap_2.
Qed.

End zero_fill.

(** C9: a cohort client without any row in the behaviour table receives
    exactly one synthetic event, of volume 0 and dated at its became date
    (clients that have behaviour receive none); the periodized frame then
    holds, for every cohort client, one cell per grid month, the grid being
    non-empty, and the block of the zero-filled client is the zero series,
    its became-month included. *)
Theorem zero_fill_one_event (rows : list customer) (behavior_df : list event)
    (c : customer) :
  NoDup (client_ids rows) →
  c ∈ rows →
  bridge_company_id c ∉ ev_client <$> behavior_df →
  let synthetic := ids_no_behavior rows (restrict_behavior rows behavior_df) in
  let behavior := augmented_behavior rows behavior_df in
  let zero := Event (bridge_company_id c) (became_customer_date c) 0%Z in
  filter (λ e, ev_client e = bridge_company_id c) synthetic = [zero]
  ∧ filter (λ e, ev_client e = bridge_company_id c) behavior = [zero]
  ∧ (∀ c', c' ∈ rows → bridge_company_id c' ∈ ev_client <$> behavior_df →
           filter (λ e, ev_client e = bridge_company_id c') synthetic = [])
  ∧ ∃ frame grid,
      periodized behavior = inr frame
      ∧ period_grid behavior = inr grid
      ∧ grid ≠ []
      ∧ ts_month (became_customer_date c) ∈ grid
      ∧ (bridge_company_id c, (λ p, (p, 0%Z)) <$> grid) ∈ frame
      ∧ ∀ c', c' ∈ rows → ∃ cells, (bridge_company_id c', cells) ∈ frame
                                   ∧ cells.*1 = grid.
Proof.
  intros Hnd Hc Hno synthetic behavior zero.
  pose proof (augmented_of_client rows behavior_df c Hnd Hc Hno) as Haug.
  fold behavior zero in Haug.
  split; [by apply synthetic_of_client|]. split; [done|].
  split; [intros c' Hc' Hin; by apply synthetic_none|].
  assert (rows ≠ []) as Hne by (intros ->; by apply not_elem_of_nil in Hc).
  destruct (period_grid_succeeds behavior (augmented_nonempty rows behavior_df Hne))
    as [grid Hgrid].
  assert (periodized behavior = inr (reindex grid (groupby_sum behavior))) as Hper
    by (unfold periodized; by rewrite Hgrid).
  exists (reindex grid (groupby_sum behavior)), grid.
  split; [done|]. split; [done|].
  split; [by eapply period_grid_nonempty|].
  assert (zero ∈ behavior) as Hz.
  { assert (zero ∈ filter (λ e, ev_client e = bridge_company_id c) behavior) as Hin
      by (rewrite Haug; left).
    by apply list_elem_of_filter in Hin as [_ ?]. }
  split; [|split].
  - pose proof Hgrid as (a & b & Ha & Hb & _ & ->)%period_grid_inv.
    apply elem_of_grid. split.
    + by apply (proj2 (min_date_spec _ _ Ha) zero).
    + by apply (max_date_spec _ _ Hb zero).
  - destruct (periodized_blocks rows behavior_df _ c Hper Hc)
      as (grid' & Hgrid' & Hblock).
    fold behavior in Hgrid', Hblock.
    rewrite Hgrid in Hgrid'. injection Hgrid' as <-.
    erewrite list_fmap_ext; [exact Hblock|].
    intros i p _. simpl. f_equal. symmetry. apply volume_at_zero.
    rewrite Haug. by repeat constructor.
  - intros c' Hc'.
    destruct (periodized_blocks rows behavior_df _ c' Hper Hc')
      as (grid' & Hgrid' & Hblock).
    fold behavior in Hgrid', Hblock.
    rewrite Hgrid in Hgrid'. injection Hgrid' as <-.
    eexists. split; [exact Hblock|].
    rewrite <-list_fmap_compose. apply list_fmap_id.
Qed.

Lemma zero_fill_one_event_witness :
  let synthetic :=
    ids_no_behavior cohort_selected (restrict_behavior cohort_selected cohort_behavior) in
  let behavior := augmented_behavior cohort_selected cohort_behavior in
  let zero := Event 8 (Timestamp (jan + 4) 2) 0%Z in
  filter (λ e, ev_client e = 8%Z) synthetic = [zero]
  ∧ filter (λ e, ev_client e = 8%Z) behavior = [zero]
  ∧ (∀ c', c' ∈ cohort_selected → bridge_company_id c' ∈ ev_client <$> cohort_behavior →
           filter (λ e, ev_client e = bridge_company_id c') synthetic = [])
  ∧ ∃ frame grid,
      periodized behavior = inr frame
      ∧ period_grid behavior = inr grid
      ∧ grid ≠ []
      ∧ (jan + 4)%Z ∈ grid
      ∧ (8%Z, (λ p, (p, 0%Z)) <$> grid) ∈ frame
      ∧ ∀ c', c' ∈ cohort_selected → ∃ cells, (bridge_company_id c', cells) ∈ frame
                                              ∧ cells.*1 = grid.
Proof.
  apply (zero_fill_one_event cohort_selected cohort_behavior
           (Customer 8 (Timestamp (jan + 4) 2) None [])).
  - apply (bool_decide_unpack _). vm_compute. exact I.
  - right. left.
  - apply (bool_decide_unpack _). vm_compute. exact I.
Defined.

(** ** The active window as a run of months *)

Lemma foldl_max_in (r : list Z) (x : Z) : foldl Z.max x r ∈ x :: r.
Proof.
  revert x. induction r as [|y r IH]; intros x; simpl; [left|].
  pose proof (IH (Z.max x y)) as [->|Hin]%elem_of_cons.
  - destruct (Z.max_spec x y) as [[_ ->]|[_ ->]]; [right; left|left].
  - by do 2 right.
Qed.

Lemma max_date_in (behavior_df : list event) (b : Z) :
  max_date behavior_df = Some b → b ∈ event_month <$> behavior_df.
Proof.
  unfold max_date, date_max. intros Hb. apply level_dates_months.
  destruct (level_dates (groupby_sum behavior_df)) as [|x r]; [done|].
  injection Hb as <-. apply foldl_max_in.
Qed.

Lemma list_filter_ext_in {A : Type} (P Q : A → Prop) `{∀ x, Decision (P x)}
    `{∀ x, Decision (Q x)} (l : list A) :
  (∀ x, x ∈ l → P x ↔ Q x) → filter P l = filter Q l.
Proof.
  induction l as [|x l IH]; intros Hext; [done|].
  rewrite !filter_cons, IH by (intros y Hy; apply Hext; by right).
  destruct (decide (P x)) as [HP|HP], (decide (Q x)) as [HQ|HQ]; try done.
  - destruct HQ. by apply (Hext x); [left|].
  - destruct HP. by apply (Hext x); [left|].
Qed.

Lemma filter_seq_interval (lo hi n : nat) :
  hi ≤ n → filter (λ k, lo ≤ k < hi) (seq 0 n) = seq lo (hi - lo).
Proof.
  intros Hhi. destruct (decide (lo ≤ hi)) as [Hlo|Hlo].
  - replace n with (lo + ((hi - lo) + (n - hi))) by lia.
    rewrite !seq_app, !filter_app. simpl.
    rewrite (filter_Forall_none _ (seq 0 lo))
      by (apply Forall_forall; intros k Hk%elem_of_seq; lia).
    rewrite (filter_Forall_all _ (seq lo (hi - lo)))
      by (apply Forall_forall; intros k Hk%elem_of_seq; lia).
    rewrite (filter_Forall_none _ (seq _ (n - hi)))
      by (apply Forall_forall; intros k Hk%elem_of_seq; lia).
    by rewrite app_nil_r.
  - replace (hi - lo) with 0 by lia. simpl.
    apply filter_Forall_none, Forall_forall. intros k _. lia.
Qed.

Lemma seq_from_zero (lo len : nat) : seq lo len = Nat.add lo <$> seq 0 len.
Proof. by rewrite fmap_add_seq, Nat.add_0_r. Qed.

Section window.
Variables (first last : Z) (vol : Z → Z).
Variables (became : timestamp) (churn : option timestamp).

Let grid : list Z :=
  (λ k, (first + Z.of_nat k)%Z) <$> seq 0 (Z.to_nat (last - first + 1)).
Let jrows : list joined_row := (λ p, JoinedRow p (vol p) became churn) <$> grid.

Hypothesis became_on_grid : (first ≤ ts_month became)%Z.
Hypothesis churn_after_became :
  ∀ ch, churn = Some ch → (ts_month became ≤ ts_month ch)%Z.

Lemma active_periods_run :
  active_periods jrows
  = (λ k, PeriodRow (ts_month became + Z.of_nat k)
                    (vol (ts_month became + Z.of_nat k))
                    (bool_decide (is_Some churn)))
      <$> seq 0 (Z.to_nat (active_stop last churn - ts_month became)).
Proof.
  unfold jrows, grid. rewrite active_periods_grid.
  set (lo := Z.to_nat (ts_month became - first)).
  set (hi := Z.to_nat (active_stop last churn - first)).
  rewrite (list_filter_ext_in _ (λ k, lo ≤ k < hi)).
  - rewrite filter_seq_interval.
    + replace (Z.to_nat (active_stop last churn - ts_month became)) with (hi - lo)
        by (subst lo hi; lia).
      rewrite (seq_from_zero lo), <-list_fmap_compose.
      apply list_fmap_ext. intros _ k _. simpl.
      replace (first + Z.of_nat (lo + k))%Z with (ts_month became + Z.of_nat k)%Z
        by (subst lo; lia).
      done.
    + subst hi. unfold active_stop. destruct churn; lia.
  - intros k Hk%elem_of_seq. subst lo hi.
    unfold active_at, churn_reached, reached, active_stop.
    rewrite andb_true_iff, negb_true_iff, bool_decide_eq_true.
    destruct churn as [ch|].
    + specialize (churn_after_became ch eq_refl).
      rewrite bool_decide_eq_false. lia.
    + lia.
Qed.

End window.

Lemma client_active_run (demgeo_df : demgeo) (behavior_df : list event)
    (filter_rows : option (dict string)) (rows : list customer)
    (joined : list (Z * list joined_row)) (first last : Z) (c : customer) :
  consistency_check demgeo_df = true →
  cohort_rows demgeo_df filter_rows = inr rows →
  joined_frame rows behavior_df = inr joined →
  min_date (augmented_behavior rows behavior_df) = Some first →
  max_date (augmented_behavior rows behavior_df) = Some last →
  NoDup (client_ids rows) →
  c ∈ rows →
  (first ≤ ts_month (became_customer_date c))%Z →
  client_rows (bridge_company_id c) (active_frame joined)
  = (λ k, PeriodRow (ts_month (became_customer_date c) + Z.of_nat k)
                    (volume_at (augmented_behavior rows behavior_df)
                       (bridge_company_id c)
                       (ts_month (became_customer_date c) + Z.of_nat k))
                    (bool_decide (is_Some (churn_date c))))
      <$> seq 0 (Z.to_nat (active_stop last (churn_date c)
                           - ts_month (became_customer_date c))).
Proof.
  intros Hok Hrows Hjoined Hfirst Hlast Hnd Hc Hbm.
  pose proof Hjoined as (grid & Hgrid & Hj)%joined_frame_inv.
  rewrite (client_rows_active _ _ _ _ _ Hj).
  rewrite (client_rows_joined _ _ _ grid c Hjoined Hgrid Hnd Hc).
  apply period_grid_inv in Hgrid as (a & b & Ha & Hb & _ & ->).
  rewrite Hfirst in Ha. injection Ha as <-.
  rewrite Hlast in Hb. injection Hb as <-.
  rewrite active_periods_run;
    [done|done|intros ch Hch; by eapply cohort_rows_consistent].
Qed.

(** ** Behaviour made of zero-fill events only *)




Lemma ids_no_behavior_zero (rows : list customer) (behavior_df : list event) :
  Forall (λ e, total_issues e = 0%Z) (ids_no_behavior rows behavior_df).
Proof. unfold ids_no_behavior. by apply Forall_fmap, Forall_forall. Qed.




Section zero_fill_only.
Variables (rows : list customer) (behavior_df : list event).
Hypothesis no_behavior : restrict_behavior rows behavior_df = [].



End zero_fill_only.




(** ** The rolling window *)

Lemma rolling_feature_first (w : nat) (x : list Z) :
  x ≠ [] → rolling_feature w x !! 0 = Some fzero.
Proof. by destruct x. Qed.

Lemma rolling_feature_lookup (w : nat) (x : list Z) (k : nat) :
  S k < length x →
  rolling_feature w x !! S k = Some (mean (drop (S k - w) (take (S k) x))).
Proof.
  intros Hk. unfold rolling_feature, fillna.
  rewrite list_lookup_fmap, shift_take, rolling_mean_length.
  rewrite lookup_take_lt by done. simpl.
  unfold rolling_mean. rewrite list_lookup_fmap, lookup_seq_lt by lia. done.
Qed.

(** C4, as the code has it: the rolling column is computed on the trimmed
    volumes; its values are those of the rolling column of the untrimmed
    sequence at the retained periods, each averaging the (at most |w|)
    periods strictly before it whatever their term, the first one being 0;
    no value depends on a period that trimming discards. *)
Theorem rolling_over_trimmed_prefix (term : nat) (w : Z) (rows : list period_row) :
  let n := term * (length rows / term) in
  let full := p_volume <$> rows in
  s_rm <$> segment term w rows = volume_rm w (take n full)
  ∧ s_rm <$> segment term w rows = take n (volume_rm w full)
  ∧ (0 < n → rolling_feature (Z.abs_nat w) (take n full) !! 0 = Some fzero)
  ∧ (∀ k, S k < n →
          rolling_feature (Z.abs_nat w) (take n full) !! S k
          = Some (mean (drop (S k - Z.abs_nat w) (take (S k) full))))
  ∧ (∀ rows', length rows' = length rows →
              take n (p_volume <$> rows') = take n full →
              s_rm <$> segment term w rows' = s_rm <$> segment term w rows).
Proof.
  intros n full.
  assert (n ≤ length full) as Hn.
  { subst n full. rewrite length_fmap.
    pose proof (div_mod_length term (length rows)). lia. }
  assert (∀ rows0, s_rm <$> segment term w rows0
                   = volume_rm w (take (term * (length rows0 / term))
                                       (p_volume <$> rows0))) as Hrm
    by (intros rows0; by rewrite segment_rm, trimmed_volume).
  split; [apply Hrm|]. split; [by rewrite Hrm, volume_rm_take|].
  split; [|split].
  - intros Hpos. apply rolling_feature_first.
    intros Hnil%(f_equal length). rewrite length_take in Hnil. simpl in Hnil. lia.
  - intros k Hk. rewrite rolling_feature_lookup by (rewrite length_take; lia).
    do 3 f_equal. rewrite take_take. f_equal. lia.
  - intros rows' Hlen Htake. rewrite !Hrm, Hlen. fold n full. by rewrite Htake.
Qed.

Lemma rolling_over_trimmed_prefix_witness :
  s_rm <$> segment 3 2 (five_periods 400 500) = s_rm <$> segment 3 2 (five_periods 4 5).
Proof.
  apply (rolling_over_trimmed_prefix 3 2 (five_periods 4 5)); reflexivity.
Defined.

(** C4, counterexample: with five active periods and a term of three, the
    rolling column is computed on the three retained volumes, not on the five
    active ones, and it is the same whatever the two discarded periods hold. *)
Lemma rolling_before_trimming_counterexample :
  p_volume <$> five_periods 4 5 = [1; 2; 3; 4; 5]%Z
  ∧ p_volume <$> trimmed 3 (five_periods 4 5) = [1; 2; 3]%Z
  ∧ s_rm <$> segment 3 2 (five_periods 4 5) = volume_rm 2 [1; 2; 3]%Z
  ∧ s_rm <$> segment 3 2 (five_periods 4 5) ≠ volume_rm 2 [1; 2; 3; 4; 5]%Z
  ∧ s_rm <$> segment 3 2 (five_periods 400 500)
    = s_rm <$> segment 3 2 (five_periods 4 5).
Proof.
  repeat split; try (vm_compute; reflexivity).
  vm_compute. discriminate.
Qed.

(** * Further properties of the pipeline *)

(** ** Which exceptions a run can end in *)

Lemma cohort_rows_error (demgeo_df : demgeo) (filter_rows : option (dict string))
    (e : exn) :
  cohort_rows demgeo_df filter_rows = inl e →
  (e = KeyError ∧ ¬ Forall (λ k, k ∈ dg_columns demgeo_df)
                          (demgeo_df_listtokeep filter_rows))
  ∨ (e = TypeError ∧ filter_rows = None).
Proof.
  unfold cohort_rows, select_columns. case_decide as Hcols; simpl.
  - destruct filter_rows as [d|]; simpl; [done|]. intros [= <-]. by right.
  - intros [= <-]. by left.
Qed.

Lemma restrict_behavior_nil (behavior_df : list event) :
  restrict_behavior [] behavior_df = [].
Proof.
  apply filter_Forall_none, Forall_forall. intros e _ He.
  by apply not_elem_of_nil in He.
Qed.

(** The frame of an empty cohort has no date to build a grid from; the join
    refuses a cohort with two records for one client. *)
Lemma joined_frame_error (rows : list customer) (behavior_df : list event) (e : exn) :
  joined_frame rows behavior_df = inl e →
  (e = ValueError ∧ rows = [])
  ∨ (e = NotImplementedError ∧ rows ≠ [] ∧ ¬ NoDup (client_ids rows)).
Proof.
  intros He. destruct rows as [|c rows].
  - left. split; [|done]. revert He.
    unfold joined_frame, augmented_behavior. rewrite restrict_behavior_nil.
    by intros [= <-].
  - right. destruct (decide (NoDup (client_ids (c :: rows)))) as [Hnd|Hdup].
    + destruct (joined_frame_succeeds (c :: rows) behavior_df) as [j Hj];
        [done|done|congruence].
    + rewrite joined_frame_duplicates in He by done.
      injection He as <-. done.
Qed.

Lemma drop_keep_month_error (active : list (Z * list period_row)) (e : exn) :
  drop_keep_month active = inl e → e = KeyError.
Proof. unfold drop_keep_month. destruct (active ≫= snd); [|done]. by intros [= <-]. Qed.

Lemma lookup_term_error (filter_rows : option (dict string)) (e : exn) :
  lookup_term filter_rows = inl e →
  (e = TypeError ∧ filter_rows = None) ∨ (e = KeyError ∧ filter_rows ≠ None).
Proof.
  unfold lookup_term. destruct filter_rows as [d|]; [|intros [= <-]; by left].
  destruct (dict_get _ d) as [v|]; [|intros [= <-]; by right].
  destruct (dict_get v term_dict); [done|]. intros [= <-]. by right.
Qed.

(** The assertion of line 148 never fires: no run ends in
    [AssertionError]. *)
Theorem never_assertion_error (demgeo_df : demgeo) (behavior_df : list event)
    (filter_rows : option (dict string)) (rolling_window : option Z)
    (include_term : bool) (include_month : pyflag)
    (split_by_date : option timestamp) :
  process_behavior demgeo_df behavior_df filter_rows rolling_window
                   include_term include_month split_by_date
  ≠ inl AssertionError.
Proof.
  unfold process_behavior, transform.
  destruct (consistency_check demgeo_df); [|done].
  destruct (cohort_rows demgeo_df filter_rows) as [e|rows] eqn:Hrows; simpl.
  { apply cohort_rows_error in Hrows as [[-> _]|[-> _]]; done. }
  destruct (joined_frame rows behavior_df) as [e|joined] eqn:Hj; simpl.
  { apply joined_frame_error in Hj as [[-> _]|[-> _]]; done. }
  destruct (lookup_term filter_rows) as [e|term] eqn:Ht; simpl.
  { apply lookup_term_error in Ht as [[-> _]|[-> _]]; done. }
  destruct (drop_keep_month (active_frame joined)) as [e|[]] eqn:Hk; simpl.
  { by apply drop_keep_month_error in Hk as ->. }
  by destruct (behavior_volume_col_rm rolling_window).
Qed.

(** A run ends in [TypeError] exactly when the demographic table is
    consistent and [filter_rows] is [None]. *)
Theorem type_error_iff_filter_none (demgeo_df : demgeo) (behavior_df : list event)
    (filter_rows : option (dict string)) (rolling_window : option Z)
    (include_term : bool) (include_month : pyflag)
    (split_by_date : option timestamp) :
  process_behavior demgeo_df behavior_df filter_rows rolling_window
                   include_term include_month split_by_date = inl TypeError
  ↔ consistency_check demgeo_df = true ∧ filter_rows = None.
Proof.
  unfold process_behavior, transform.
  destruct (consistency_check demgeo_df); [|split; [done|by intros [? _]]].
  split.
  - destruct (cohort_rows demgeo_df filter_rows) as [e|rows] eqn:Hrows; simpl.
    { intros [= ->]. by apply cohort_rows_error in Hrows as [[? _]|[_ ->]]. }
    destruct (joined_frame rows behavior_df) as [e|joined] eqn:Hj; simpl.
    { intros [= ->]. by apply joined_frame_error in Hj as [[? _]|[? _]]. }
    destruct (lookup_term filter_rows) as [e|term] eqn:Ht; simpl.
    { intros [= ->]. by apply lookup_term_error in Ht as [[_ ->]|[? _]]. }
    destruct (drop_keep_month (active_frame joined)) as [e|[]] eqn:Hk; simpl.
    { intros [= ->]. by apply drop_keep_month_error in Hk. }
    by destruct (behavior_volume_col_rm rolling_window).
  - by intros [_ ->].
Qed.

(** A filter column that the demographic table does not have stops a
    consistent run with [KeyError], at the column selection of line 113. *)
Theorem missing_filter_column (demgeo_df : demgeo) (behavior_df : list event)
    (filter : dict string) (rolling_window : option Z)
    (include_term : bool) (include_month : pyflag)
    (split_by_date : option timestamp) (col : string) :
  consistency_check demgeo_df = true →
  col ∈ dict_keys filter →
  col ∉ dg_columns demgeo_df →
  process_behavior demgeo_df behavior_df (Some filter) rolling_window
                   include_term include_month split_by_date = inl KeyError.
Proof.
  intros Hok Hcol Hmiss. unfold process_behavior, transform. rewrite Hok.
  unfold cohort_rows, select_columns. rewrite decide_False; [done|].
  intros Hall. apply Hmiss. by apply (proj1 (Forall_forall _ _) Hall).
Qed.

Lemma missing_filter_column_witness :
  process_behavior (scenario_demgeo None) scenario_behavior
                   (Some [("last_recurrence", "Trimestral"); ("segment", "B2B")]%string)
                   (Some 2%Z) true (PyBool true) None = inl KeyError.
Proof.
  apply (missing_filter_column _ _ _ _ _ _ _ "segment"%string).
  - reflexivity.
  - right. left.
  - apply (bool_decide_unpack _). vm_compute. exact I.
Defined.

(** When the term length cannot be resolved (no ['last_recurrence'] entry in
    the filter, or a value that [term_dict] does not list) no run returns a
    table. A consistent run over a non-empty cohort stops at the lookup of
    line 176 with [KeyError] when the cohort has one record per client; with
    two records for one client it has already stopped at the join of line 153
    with [NotImplementedError]. *)
Theorem unresolved_term_raises (demgeo_df : demgeo) (behavior_df : list event)
    (filter_rows : option (dict string)) (rolling_window : option Z)
    (include_term : bool) (include_month : pyflag)
    (split_by_date : option timestamp) (e : exn) :
  lookup_term filter_rows = inl e →
  raises (process_behavior demgeo_df behavior_df filter_rows rolling_window
                           include_term include_month split_by_date)
  ∧ ∀ rows, consistency_check demgeo_df = true →
            cohort_rows demgeo_df filter_rows = inr rows →
            rows ≠ [] →
            process_behavior demgeo_df behavior_df filter_rows rolling_window
                             include_term include_month split_by_date
            = inl (if bool_decide (NoDup (client_ids rows))
                   then KeyError else NotImplementedError).
Proof.
  intros Ht. unfold raises, process_behavior, transform. split.
  - destruct (consistency_check demgeo_df); [|by eexists].
    destruct (cohort_rows demgeo_df filter_rows) as [|rows]; [by eexists|]. simpl.
    destruct (joined_frame rows behavior_df) as [|joined]; [by eexists|]. simpl.
    rewrite Ht. by eexists.
  - intros rows -> Hrows Hne. rewrite Hrows. simpl. case_bool_decide as Hnd.
    + destruct (joined_frame_succeeds rows behavior_df Hne Hnd) as [joined ->].
      simpl. rewrite Ht. simpl.
      apply lookup_term_error in Ht as [[_ ->]|[-> _]]; [|done].
      discriminate Hrows.
    + by rewrite joined_frame_duplicates.
Qed.

Lemma unresolved_term_raises_witness :
  process_behavior bimestral_demgeo scenario_behavior (Some (plan "Bimestral"))
                   (Some 2%Z) true (PyBool true) None = inl KeyError.
Proof.
  apply (proj2 (unresolved_term_raises bimestral_demgeo scenario_behavior
                  (Some (plan "Bimestral")) (Some 2%Z) true (PyBool true) None
                  KeyError eq_refl)
           [Customer 3 (Timestamp jan 4) None []]);
    [reflexivity|vm_compute; reflexivity|discriminate].
Defined.

(** ** The cohort filter *)

Section cohort_filter.

Lemma dict_get_filter (P : string → Prop) `{∀ k, Decision (P k)} (k : string)
    (cells : list (string * string)) :
  P k → dict_get k (filter (λ kv, P kv.1) cells) = dict_get k cells.
Proof.
  intros Hk. induction cells as [|[k' v] cells IH]; [done|].
  rewrite filter_cons. simpl. destruct (decide (P k')) as [Hk'|Hk'].
  - simpl. by rewrite IH.
  - rewrite IH. rewrite decide_False; [done|]. by intros ->.
Qed.

Lemma foldl_filter_step_rows (d : dict string) (df : demgeo) :
  dg_rows (foldl filter_step df d) = foldl rows_step (dg_rows df) d.
Proof. revert df. induction d as [|kv d IH]; intros df; [done|]. simpl. by rewrite IH. Qed.

Lemma matches_drop_cell (d : dict string) (k : string) (c : customer) :
  k ∉ dict_keys d → matches d (drop_cell k c) ↔ matches d c.
Proof.
  intros Hk. unfold matches. rewrite !Forall_forall.
  assert (∀ kv, kv ∈ d →
            dict_get kv.1 (cohort (drop_cell k c)) = dict_get kv.1 (cohort c)) as Hsame.
  { intros kv Hkv.
    pose proof (dict_get_filter (λ k', k' ≠ k) kv.1 (cohort c)) as Hd.
    apply Hd. intros Heq. apply Hk. rewrite <-Heq.
    by apply (list_elem_of_fmap_2 fst) in Hkv. }
  split; intros Hall kv Hkv.
  - rewrite <-(Hsame kv Hkv). by apply Hall.
  - rewrite (Hsame kv Hkv). by apply Hall.
Qed.

Lemma drop_cells_drop_cell (keys : list string) (k : string) (c : customer) :
  drop_cells keys (drop_cell k c) = drop_cells (k :: keys) c.
Proof.
  unfold drop_cells, drop_cell. simpl. f_equal. unfold dict.
  rewrite list_filter_filter. apply list_filter_iff.
  intros [k' v]. simpl. rewrite not_elem_of_cons. tauto.
Qed.

Lemma foldl_rows_step (d : dict string) (rows : list customer) :
  NoDup (dict_keys d) →
  foldl rows_step rows d = drop_cells (dict_keys d) <$> filter (matches d) rows.
Proof.
  revert rows. induction d as [|[k v] d IH]; intros rows Hnd.
  - simpl. rewrite filter_Forall_all by (apply Forall_forall; intros; constructor).
    rewrite <-(list_fmap_id rows) at 1. apply list_fmap_ext. intros _ c _.
    destruct c as [i b ch cells]. unfold drop_cells. simpl. f_equal.
    symmetry. apply filter_Forall_all, Forall_forall. intros kv _.
    apply not_elem_of_nil.
  - unfold dict_keys in Hnd. rewrite fmap_cons in Hnd.
    apply NoDup_cons in Hnd as [Hk Hnd].
    simpl. rewrite IH by done. unfold rows_step at 1. simpl.
    rewrite filter_fmap_key, <-list_fmap_compose.
    rewrite list_filter_filter.
    rewrite (list_filter_iff _ (matches ((k, v) :: d))).
    + apply list_fmap_ext. intros _ c _. simpl. apply drop_cells_drop_cell.
    + intros c. rewrite (matches_drop_cell d k c Hk). unfold matches.
      rewrite Forall_cons. simpl. tauto.
Qed.

Lemma matches_keep_cells (d : dict string) (c : customer) :
  matches d (keep_cells (dict_keys d) c) ↔ matches d c.
Proof.
  unfold matches. rewrite !Forall_forall.
  assert (∀ kv, kv ∈ d →
            dict_get kv.1 (cohort (keep_cells (dict_keys d) c))
            = dict_get kv.1 (cohort c)) as Hsame.
  { intros kv Hkv.
    pose proof (dict_get_filter (λ k', k' ∈ dict_keys d) kv.1 (cohort c)) as Hd.
    apply Hd. by apply (list_elem_of_fmap_2 fst) in Hkv. }
  split; intros Hall kv Hkv.
  - rewrite <-(Hsame kv Hkv). by apply Hall.
  - rewrite (Hsame kv Hkv). by apply Hall.
Qed.

End cohort_filter.

(** The cohort of a filter with distinct columns, all present in the table:
    the records whose cells match every required value, in the order of the
    table, each reduced to its id and its two dates. *)
Theorem cohort_rows_spec (demgeo_df : demgeo) (filter : dict string) :
  NoDup (dict_keys filter) →
  Forall (λ k, k ∈ dg_columns demgeo_df) (dict_keys filter) →
  cohort_rows demgeo_df (Some filter)
  = inr (lifecycle <$> base.filter (matches filter) (dg_rows demgeo_df)).
Proof.
  intros Hnd Hcols. unfold cohort_rows, select_columns. simpl.
  rewrite decide_True by done. simpl. f_equal.
  rewrite foldl_filter_step_rows. simpl. rewrite foldl_rows_step by done.
  rewrite filter_fmap_key, <-list_fmap_compose.
  rewrite (list_filter_iff _ (matches filter))
    by (intros c; apply matches_keep_cells).
  apply list_fmap_ext. intros _ c _. unfold lifecycle, drop_cells. simpl. f_equal.
  unfold dict. rewrite list_filter_filter.
  apply filter_Forall_none, Forall_forall. intros kv _. tauto.
Qed.

Lemma cohort_rows_spec_witness :
  cohort_rows cohort_demgeo (Some (plan "Trimestral"))
  = inr (lifecycle <$> base.filter (matches (plan "Trimestral")) (dg_rows cohort_demgeo)).
Proof.
  apply cohort_rows_spec.
  - apply (bool_decide_unpack _). vm_compute. exact I.
  - apply (bool_decide_unpack _). vm_compute. exact I.
Defined.

(** ** The periodized frame *)

Lemma sorted_unique_ext (l k : list Z) :
  (∀ x, x ∈ l ↔ x ∈ k) → sorted_unique l = sorted_unique k.
Proof.
  intros Hel. symmetry. apply sorted_unique_unique.
  - apply Sorted_sorted_unique.
  - apply NoDup_sorted_unique.
  - intros x. by rewrite elem_of_sorted_unique.
Qed.

Lemma cell_get_fmap (g : Z → Z) (months : list Z) (p : Z) :
  cell_get p ((λ m, (m, g m)) <$> months)
  = if decide (p ∈ months) then Some (g p) else None.
Proof.
  induction months as [|m months IH]; [done|].
  rewrite fmap_cons. simpl. destruct (decide (m = p)) as [->|Hne].
  - by rewrite decide_True by left.
  - rewrite IH. destruct (decide (p ∈ months)) as [Hin|Hout].
    + by rewrite decide_True by (by right).
    + rewrite decide_False; [done|]. by intros [->|?]%elem_of_cons.
Qed.

(** Reindexing the grouped sums reads back, for every month, the sum of the
    client's events of that month, and 0 where the client has none. *)
Lemma volume_at_sum (behavior_df : list event) (i p : Z) :
  volume_at behavior_df i p = monthly_volume behavior_df i p.
Proof.
  unfold volume_at, monthly_sums, monthly_volume. rewrite cell_get_fmap.
  case_decide as Hin; simpl.
  - rewrite list_filter_filter. do 2 f_equal.
    apply list_filter_iff. intros e. tauto.
  - symmetry. rewrite filter_Forall_none; [done|].
    apply Forall_forall. intros e He [Hi Hp]. apply Hin.
    apply elem_of_sorted_unique, list_elem_of_fmap. exists e. split; [done|].
    by apply list_elem_of_filter.
Qed.

(** The cell is the plain sum whenever that sum fits in 64 bits. *)
Lemma monthly_volume_exact (behavior_df : list event) (i p : Z) :
  let total := sum_Z (total_issues <$> filter (λ e, ev_client e = i ∧ event_month e = p)
                                              behavior_df) in
  (- 2 ^ 63 ≤ total < 2 ^ 63)%Z → monthly_volume behavior_df i p = total.
Proof.
  intros total Ht. unfold monthly_volume. rewrite sum_int64_spec.
  by apply int64_small.
Qed.

Lemma monthly_volume_augmented (rows : list customer) (behavior_df : list event)
    (i p : Z) :
  i ∈ client_ids rows →
  monthly_volume (augmented_behavior rows behavior_df) i p
  = monthly_volume behavior_df i p.
Proof.
  intros Hi. unfold monthly_volume, augmented_behavior, restrict_behavior.
  rewrite !sum_int64_spec, filter_app, fmap_app, sum_Z_app.
  rewrite (sum_Z_zero (_ <$> filter _ (ids_no_behavior _ _))).
  - rewrite Z.add_0_r, list_filter_filter. do 3 f_equal.
    apply list_filter_iff. intros e. split; [tauto|].
    intros [He Hp]. repeat split; try done. by rewrite He.
  - apply Forall_fmap, Forall_forall. intros e [_ He]%list_elem_of_filter.
    revert He. apply Forall_forall, ids_no_behavior_zero.
Qed.

(** The frame after reindexing (line 146): one block per cohort client, in
    increasing order of id, and in each block one cell per grid month that
    holds the summed volume of the client's events of that month, 0 where
    the client has none. *)
Theorem periodized_spec (rows : list customer) (behavior_df : list event)
    (grid : list Z) :
  period_grid (augmented_behavior rows behavior_df) = inr grid →
  periodized (augmented_behavior rows behavior_df)
  = inr ((λ i, (i, (λ p, (p, monthly_volume behavior_df i p)) <$> grid))
           <$> sorted_unique (client_ids rows)).
Proof.
  intros Hgrid. unfold periodized. rewrite Hgrid. simpl. f_equal.
  unfold reindex, groupby_sum. rewrite <-list_fmap_compose.
  rewrite (sorted_unique_ext _ (client_ids rows)) by apply augmented_ids.
  apply list_fmap_ext. intros k i Hi%list_elem_of_lookup_2.
  rewrite elem_of_sorted_unique in Hi. simpl. f_equal.
  unfold reindex_last_level. apply list_fmap_ext. intros _ p _. f_equal.
  change (volume_at (augmented_behavior rows behavior_df) i p
          = monthly_volume behavior_df i p).
  by rewrite volume_at_sum, monthly_volume_augmented.
Qed.

Lemma periodized_spec_witness :
  periodized (augmented_behavior cohort_selected cohort_behavior)
  = inr ((λ i, (i, (λ p, (p, monthly_volume cohort_behavior i p)) <$> cohort_grid))
           <$> sorted_unique (client_ids cohort_selected)).
Proof.
  apply periodized_spec. vm_compute. reflexivity.
Defined.

(** ** The shared grid, continued *)

(** The grid of lines 139-141 is the run of consecutive months from the
    earliest to the latest month in which the behaviour table has an event:
    both ends carry an event and every event falls on a grid month. *)
Theorem period_grid_spec (behavior_df : list event) (grid : list Z) :
  period_grid behavior_df = inr grid →
  ∃ first last,
    grid = (λ k, (first + Z.of_nat k)%Z) <$> seq 0 (Z.to_nat (last - first + 1))
    ∧ first ∈ event_month <$> behavior_df
    ∧ last ∈ event_month <$> behavior_df
    ∧ (∀ p, p ∈ grid ↔ (first ≤ p ≤ last)%Z)
    ∧ ∀ e, e ∈ behavior_df → event_month e ∈ grid.
Proof.
  intros (a & b & Ha & Hb & Hab & ->)%period_grid_inv. exists a, b.
  split; [done|]. split; [by apply min_date_spec|]. split; [by apply max_date_in|].
  split; [intros p; apply elem_of_grid|].
  intros e He. apply elem_of_grid. split.
  - by apply (proj2 (min_date_spec _ _ Ha)).
  - by apply (max_date_spec _ _ Hb).
Qed.

Lemma period_grid_spec_witness :
  ∃ first last,
    cohort_grid
    = (λ k, (first + Z.of_nat k)%Z) <$> seq 0 (Z.to_nat (last - first + 1))
    ∧ first ∈ event_month <$> augmented_behavior cohort_selected cohort_behavior
    ∧ last ∈ event_month <$> augmented_behavior cohort_selected cohort_behavior
    ∧ (∀ p, p ∈ cohort_grid ↔ (first ≤ p ≤ last)%Z)
    ∧ ∀ e, e ∈ augmented_behavior cohort_selected cohort_behavior →
           event_month e ∈ cohort_grid.
Proof.
  apply (period_grid_spec (augmented_behavior cohort_selected cohort_behavior)
           cohort_grid).
  vm_compute. reflexivity.
Defined.

(** ** The active rows of a client *)

(** The active periods of a client whose became-month is not before the
    first grid month: the consecutive months from its became-month up to, and
    not including, its churn-month or else up to the last grid month, each
    with the summed volume of the client's events of that month and the
    client's churn status. *)
Theorem active_rows_spec (demgeo_df : demgeo) (behavior_df : list event)
    (filter_rows : option (dict string)) (rows : list customer)
    (joined : list (Z * list joined_row)) (first last : Z) (c : customer) :
  consistency_check demgeo_df = true →
  cohort_rows demgeo_df filter_rows = inr rows →
  joined_frame rows behavior_df = inr joined →
  min_date (augmented_behavior rows behavior_df) = Some first →
  max_date (augmented_behavior rows behavior_df) = Some last →
  NoDup (client_ids rows) →
  c ∈ rows →
  (first ≤ ts_month (became_customer_date c))%Z →
  client_rows (bridge_company_id c) (active_frame joined)
  = (λ k, PeriodRow (ts_month (became_customer_date c) + Z.of_nat k)
                    (monthly_volume behavior_df (bridge_company_id c)
                       (ts_month (became_customer_date c) + Z.of_nat k))
                    (bool_decide (is_Some (churn_date c))))
      <$> seq 0 (Z.to_nat (active_stop last (churn_date c)
                           - ts_month (became_customer_date c))).
Proof.
  intros Hok Hrows Hjoined Hfirst Hlast Hnd Hc Hbm.
  rewrite (client_active_run _ _ _ _ _ _ _ _ Hok Hrows Hjoined Hfirst Hlast Hnd Hc Hbm).
  apply list_fmap_ext. intros _ k _. simpl. f_equal.
  rewrite volume_at_sum. apply monthly_volume_augmented.
  by apply list_elem_of_fmap_2.
Qed.

Lemma active_rows_spec_witness :
  client_rows 9 (active_frame cohort_joined)
  = (λ k, PeriodRow (jan + Z.of_nat k)
                    (monthly_volume cohort_behavior 9 (jan + Z.of_nat k))
                    (bool_decide (is_Some (Some (Timestamp (jan + 3) 5)))))
      <$> seq 0 (Z.to_nat (active_stop (jan + 5) (Some (Timestamp (jan + 3) 5)) - jan)).
Proof.
  apply (active_rows_spec cohort_demgeo cohort_behavior trimestral cohort_selected
           cohort_joined jan (jan + 5)
           (Customer 9 (Timestamp jan 0) (Some (Timestamp (jan + 3) 5)) [])).
  - vm_compute; reflexivity.
  - vm_compute; reflexivity.
  - vm_compute; reflexivity.
  - vm_compute; reflexivity.
  - vm_compute; reflexivity.
  - apply (bool_decide_unpack _). vm_compute. exact I.
  - right. right. left.
  - vm_compute. discriminate.
Defined.

(** ** The rows of a term *)

(** Grouping by a key column made of [q] blocks of [term] equal indices cuts
    the frame into consecutive slices of [term] rows. *)
Lemma filter_blocks_chunk {A : Type} (key : A → Z) (term : nat) (q a j : nat)
    (l : list A) :
  key <$> l = (seq a q ≫= λ i, replicate term (Z.of_nat i)) →
  a ≤ j < a + q →
  filter (λ r, key r = Z.of_nat j) l = take term (drop ((j - a) * term) l).
Proof.
  revert a l. induction q as [|q IH]; intros a l Hkey Hj; [lia|].
  rewrite <-cons_seq, bind_cons in Hkey.
  assert (length l = term + length (drop term l)) as Hlen.
  { rewrite length_drop. apply (f_equal length) in Hkey.
    rewrite length_fmap, length_app, length_replicate in Hkey. lia. }
  assert (key <$> take term l = replicate term (Z.of_nat a)) as H1.
  { rewrite fmap_take, Hkey, take_app_length'; [done|by rewrite length_replicate]. }
  assert (key <$> drop term l = (seq (S a) q ≫= λ i, replicate term (Z.of_nat i)))
    as H2.
  { rewrite fmap_drop, Hkey, drop_app_length'; [done|by rewrite length_replicate]. }
  rewrite <-(take_drop term l) at 1. rewrite filter_app.
  destruct (decide (j = a)) as [->|Hne].
  - rewrite filter_Forall_all.
    + rewrite filter_Forall_none; [by rewrite Nat.sub_diag, app_nil_r|].
      apply Forall_forall. intros r Hr Heq.
      apply (list_elem_of_fmap_2 key) in Hr. rewrite H2, Heq in Hr.
      apply list_elem_of_bind in Hr as (i & [Hi _]%elem_of_replicate & Hs%elem_of_seq).
      lia.
    + apply Forall_forall. intros r Hr.
      apply (list_elem_of_fmap_2 key) in Hr. rewrite H1 in Hr.
      by apply elem_of_replicate in Hr as [-> _].
  - rewrite filter_Forall_none.
    + simpl. rewrite (IH (S a) (drop term l) H2) by lia.
      rewrite drop_drop. do 2 f_equal.
      replace (j - a) with (S (j - S a)) by lia. simpl. lia.
    + apply Forall_forall. intros r Hr Heq.
      apply (list_elem_of_fmap_2 key) in Hr. rewrite H1, Heq in Hr.
      apply elem_of_replicate in Hr as [Hr _]. lia.
Qed.

Lemma take_drop_take {A : Type} (n m len : nat) (l : list A) :
  m + len ≤ n → take len (drop m (take n l)) = take len (drop m l).
Proof.
  intros Hn. rewrite !take_drop_commute, take_take. do 2 f_equal. lia.
Qed.

Section term_content.
Variables (it : bool) (im : pyflag) (sd : option timestamp) (client : Z).
Variables (term : nat) (w : Z) (rows : list period_row) (j : nat).
Hypothesis term_pos : term ≠ 0.
Hypothesis j_lt : j < length rows / term.

Let seg := segment term w rows.
Let obs := term_obs it im sd client seg (Z.of_nat j).

Lemma chunk_within : j * term + term ≤ term * (length rows / term).
Proof. nia. Qed.

Lemma term_group :
  filter (λ r, s_term r = Z.of_nat j) seg = take term (drop (j * term) seg).
Proof.
  rewrite (filter_blocks_chunk s_term term (length rows / term) 0 j).
  - by rewrite Nat.sub_0_r.
  - by apply segment_term.
  - lia.
Qed.

Lemma term_obs_volumes :
  o_volumes obs = take term (drop (j * term) (p_volume <$> rows)).
Proof.
  unfold obs, term_obs. simpl. rewrite term_group, fmap_take, fmap_drop.
  unfold seg. rewrite segment_volume. apply take_drop_take, chunk_within.
Qed.

Lemma term_obs_rolling :
  o_rolling obs = take term (drop (j * term) (volume_rm w (p_volume <$> rows))).
Proof.
  unfold obs, term_obs. simpl. rewrite term_group, fmap_take, fmap_drop.
  unfold seg. rewrite segment_rm, trimmed_volume, volume_rm_take.
  apply take_drop_take, chunk_within.
Qed.

Lemma term_obs_first_date :
  s_date <$> head (filter (λ r, s_term r = Z.of_nat j) seg)
  = (p_date <$> rows) !! (j * term).
Proof.
  rewrite term_group, head_lookup, lookup_take_lt by lia.
  rewrite lookup_drop, Nat.add_0_r, <-list_lookup_fmap.
  unfold seg. rewrite segment_date, lookup_take_lt; [done|].
  pose proof chunk_within. lia.
Qed.

Lemma term_obs_lengths : length (o_volumes obs) = term ∧ length (o_rolling obs) = term.
Proof.
  pose proof chunk_within as Hc.
  pose proof (div_mod_length term (length rows)) as Hd.
  rewrite term_obs_volumes, term_obs_rolling.
  rewrite !length_take, !length_drop, volume_rm_length, length_fmap. lia.
Qed.

End term_content.

(** ** What a returned table holds *)

Section table.
Variables (demgeo_df : demgeo) (behavior_df : list event).
Variables (filter_rows : option (dict string)) (rolling_window : option Z).
Variables (include_term : bool) (include_month : pyflag).
Variable split_by_date : option timestamp.
Variables (out : list term_row) (rows : list customer).
Variables (joined : list (Z * list joined_row)) (term : nat) (w : Z).

Hypothesis run_ok :
  process_behavior demgeo_df behavior_df filter_rows rolling_window
                   include_term include_month split_by_date = inr out.
Hypothesis rows_ok : cohort_rows demgeo_df filter_rows = inr rows.
Hypothesis joined_ok : joined_frame rows behavior_df = inr joined.
Hypothesis term_ok : lookup_term filter_rows = inr term.
Hypothesis window_ok : behavior_volume_col_rm rolling_window = Some w.

Lemma table_rows_obs (c : Z) :
  rows_of c out
  = term_obs include_term include_month split_by_date c
             (segment term w (client_rows c (active_frame joined)))
      <$> (Z.of_nat <$> seq 0 (length (client_rows c (active_frame joined)) / term)).
Proof.
  destruct (process_behavior_rows _ _ _ _ _ _ _ _ run_ok)
    as (rows' & joined' & term' & w' & Hrows & Hjoined & Hterm & Hw & Hout).
  rewrite rows_ok in Hrows. injection Hrows as <-.
  rewrite joined_ok in Hjoined. injection Hjoined as <-.
  rewrite term_ok in Hterm. injection Hterm as <-.
  rewrite window_ok in Hw. injection Hw as <-.
  rewrite Hout. apply customer_rows_obs. by eapply lookup_term_pos.
Qed.

Lemma table_row_inv (r : term_row) :
  r ∈ out →
  ∃ j, j < length (client_rows (o_client r) (active_frame joined)) / term
       ∧ r = term_obs include_term include_month split_by_date (o_client r)
                      (segment term w (client_rows (o_client r) (active_frame joined)))
                      (Z.of_nat j).
Proof.
  intros Hr.
  assert (r ∈ rows_of (o_client r) out) as Hin by (by apply list_elem_of_filter).
  rewrite table_rows_obs, <-list_fmap_compose in Hin.
  apply list_elem_of_fmap in Hin as (j & Hj & Hs%elem_of_seq).
  exists j. split; [lia|done].
Qed.

End table.

(** The rows of a client cut its active periods, in chronological order, into
    consecutive terms: row [j] holds the volumes of active periods
    [j * term .. j * term + term - 1] and the matching slice of the rolling
    column computed over the client's whole active sequence; each row has
    exactly [term] volumes and [term] rolling values. *)
Theorem term_rows_content (demgeo_df : demgeo) (behavior_df : list event)
    (filter_rows : option (dict string)) (rolling_window : option Z)
    (include_term : bool) (include_month : pyflag)
    (split_by_date : option timestamp)
    (out : list term_row) (rows : list customer)
    (joined : list (Z * list joined_row)) (term : nat) (w : Z) (c : Z) :
  process_behavior demgeo_df behavior_df filter_rows rolling_window
                   include_term include_month split_by_date = inr out →
  cohort_rows demgeo_df filter_rows = inr rows →
  joined_frame rows behavior_df = inr joined →
  lookup_term filter_rows = inr term →
  behavior_volume_col_rm rolling_window = Some w →
  let volumes := p_volume <$> client_rows c (active_frame joined) in
  o_volumes <$> rows_of c out
  = (λ j, take term (drop (j * term) volumes)) <$> seq 0 (length volumes / term)
  ∧ o_rolling <$> rows_of c out
    = (λ j, take term (drop (j * term) (volume_rm w volumes)))
        <$> seq 0 (length volumes / term)
  ∧ Forall (λ r, length (o_volumes r) = term ∧ length (o_rolling r) = term)
           (rows_of c out).
Proof.
  intros Hrun Hrows Hjoined Hterm Hw volumes.
  pose proof (lookup_term_pos _ _ Hterm) as Hpos.
  rewrite (table_rows_obs _ _ _ _ _ _ _ _ _ _ _ _ Hrun Hrows Hjoined Hterm Hw).
  subst volumes. rewrite length_fmap, <-!list_fmap_compose.
  split; [|split].
  - apply list_fmap_ext. intros i j [-> Hj]%lookup_seq.
    exact (term_obs_volumes include_term include_month split_by_date c term w
             _ i Hpos Hj).
  - apply list_fmap_ext. intros i j [-> Hj]%lookup_seq.
    exact (term_obs_rolling include_term include_month split_by_date c term w
             _ i Hpos Hj).
  - apply Forall_fmap, Forall_forall. intros j Hj%elem_of_seq.
    apply (term_obs_lengths include_term include_month split_by_date c term w
             _ j Hpos). lia.
Qed.

Lemma term_rows_content_witness :
  let volumes := p_volume <$> client_rows 7 (active_frame cohort_joined) in
  o_volumes <$> rows_of 7 cohort_out
  = (λ j, take 3 (drop (j * 3) volumes)) <$> seq 0 (length volumes / 3)
  ∧ o_rolling <$> rows_of 7 cohort_out
    = (λ j, take 3 (drop (j * 3) (volume_rm 2 volumes)))
        <$> seq 0 (length volumes / 3)
  ∧ Forall (λ r, length (o_volumes r) = 3 ∧ length (o_rolling r) = 3)
           (rows_of 7 cohort_out).
Proof.
  apply (term_rows_content cohort_demgeo cohort_behavior trimestral (Some 2%Z) true
           (PyBool true) None cohort_out cohort_selected cohort_joined 3 2%Z 7);
    vm_compute; reflexivity.
Defined.

Lemma calendar_month_range (m : Z) : (1 ≤ calendar_month m ≤ 12)%Z.
Proof. unfold calendar_month. pose proof (Z.mod_pos_bound m 12). lia. Qed.

(** The optional columns of every returned row: [term] repeats the term
    index when [include_term] holds and is absent otherwise; [month] is absent
    when [include_month] is falsy ([False] or the integer 0), lies in 1..12
    for [True] and in 0..11 for a non-zero integer offset (the sum is taken
    modulo 12, so 12 never appears); [train] is present exactly when
    [split_by_date] is. *)
Theorem optional_columns (demgeo_df : demgeo) (behavior_df : list event)
    (filter_rows : option (dict string)) (rolling_window : option Z)
    (include_term : bool) (include_month : pyflag)
    (split_by_date : option timestamp) (out : list term_row) (r : term_row) :
  process_behavior demgeo_df behavior_df filter_rows rolling_window
                   include_term include_month split_by_date = inr out →
  r ∈ out →
  (0 ≤ o_term_index r)%Z
  ∧ o_term r = (if include_term then Some (o_term_index r) else None)
  ∧ (truthy include_month = false → o_month r = None)
  ∧ (include_month = PyBool true → ∃ m, o_month r = Some m ∧ (1 ≤ m ≤ 12)%Z)
  ∧ (∀ k, include_month = PyInt k → k ≠ 0%Z →
          ∃ m, o_month r = Some m ∧ (0 ≤ m ≤ 11)%Z)
  ∧ (is_Some (o_train r) ↔ is_Some split_by_date).
Proof.
  intros Hrun Hr.
  pose proof Hrun as (_ & rows & joined & term & w & Hrows & Hjoined & Hterm & Hw & _)
    %process_behavior_inv.
  destruct (table_row_inv _ _ _ _ _ _ _ _ _ _ _ _ Hrun Hrows Hjoined Hterm Hw r Hr)
    as (j & _ & ->).
  unfold term_obs. simpl. split; [lia|]. split; [done|].
  unfold month_column. split; [by intros ->|]. split; [|split].
  - intros ->. simpl. eexists. split; [done|]. apply calendar_month_range.
  - intros k -> Hk. simpl. rewrite (proj2 (Z.eqb_neq k 0) Hk). simpl.
    eexists. split; [done|].
    match goal with |- context [(?x mod 12)%Z] => pose proof (Z.mod_pos_bound x 12) end.
    lia.
  - unfold train_column. rewrite fmap_is_Some. done.
Qed.

Lemma optional_columns_witness :
  (0 ≤ 1)%Z
  ∧ Some 1%Z = (if true then Some 1%Z else None)
  ∧ (truthy (PyBool true) = false → Some 4%Z = None)
  ∧ (PyBool true = PyBool true → ∃ m, Some 4%Z = Some m ∧ (1 ≤ m ≤ 12)%Z)
  ∧ (∀ k, PyBool true = PyInt k → k ≠ 0%Z → ∃ m, Some 4%Z = Some m ∧ (0 ≤ m ≤ 11)%Z)
  ∧ (is_Some (@None bool) ↔ is_Some (@None timestamp)).
Proof.
  apply (optional_columns cohort_demgeo cohort_behavior trimestral (Some 2%Z) true
           (PyBool true) None cohort_out
           cohort_row).
  - vm_compute; reflexivity.
  - right. left.
Defined.

(** For a client with one demographic record whose became-month is not
    before the first grid month, the number of rows is the number of months
    from its became-month to its churn-month (or to the end of the grid)
    divided by the term length, and row [j] takes its [month] and [train]
    columns from the month [became-month + j * term], the first month of the
    term. *)
Theorem term_start_columns (demgeo_df : demgeo) (behavior_df : list event)
    (filter_rows : option (dict string)) (rolling_window : option Z)
    (include_term : bool) (include_month : pyflag)
    (split_by_date : option timestamp)
    (out : list term_row) (rows : list customer)
    (joined : list (Z * list joined_row)) (term : nat) (first last : Z)
    (c : customer) :
  process_behavior demgeo_df behavior_df filter_rows rolling_window
                   include_term include_month split_by_date = inr out →
  cohort_rows demgeo_df filter_rows = inr rows →
  joined_frame rows behavior_df = inr joined →
  lookup_term filter_rows = inr term →
  min_date (augmented_behavior rows behavior_df) = Some first →
  max_date (augmented_behavior rows behavior_df) = Some last →
  NoDup (client_ids rows) →
  c ∈ rows →
  (first ≤ ts_month (became_customer_date c))%Z →
  let start := ts_month (became_customer_date c) in
  let months := Z.to_nat (active_stop last (churn_date c) - start) in
  length (rows_of (bridge_company_id c) out) = months / term
  ∧ (λ r, (o_month r, o_train r)) <$> rows_of (bridge_company_id c) out
    = (λ j, (month_column include_month (start + Z.of_nat (j * term)),
             train_column split_by_date (start + Z.of_nat (j * term))))
        <$> seq 0 (months / term).
Proof.
  intros Hrun Hrows Hjoined Hterm Hfirst Hlast Hnd Hc Hbm start months.
  pose proof Hrun as (Hok & rows' & joined' & term' & w & _ & _ & _ & Hw & _)
    %process_behavior_inv.
  pose proof (lookup_term_pos _ _ Hterm) as Hpos.
  rewrite (table_rows_obs _ _ _ _ _ _ _ _ _ _ _ _ Hrun Hrows Hjoined Hterm Hw).
  pose proof (client_active_run _ _ _ _ _ _ _ _ Hok Hrows Hjoined Hfirst Hlast
                Hnd Hc Hbm) as Hact.
  fold start months in Hact.
  assert (length (client_rows (bridge_company_id c) (active_frame joined)) = months)
    as Hlen by (by rewrite Hact, length_fmap, length_seq).
  rewrite Hlen. split; [by rewrite !length_fmap, length_seq|].
  rewrite <-!list_fmap_compose. apply list_fmap_ext.
  intros i j [-> Hj]%lookup_seq. simpl.
  assert (i * term < months) as Hi.
  { pose proof (div_mod_length term months). nia. }
  rewrite (term_obs_first_date term w _ i Hpos) by (by rewrite Hlen).
  rewrite Hact, <-list_fmap_compose, list_lookup_fmap.
  rewrite lookup_seq_lt by done. done.
Qed.

Lemma term_start_columns_witness :
  let start := jan in
  let months := Z.to_nat (active_stop (jan + 5) None - start) in
  length (rows_of 7 cohort_out) = months / 3
  ∧ (λ r, (o_month r, o_train r)) <$> rows_of 7 cohort_out
    = (λ j, (month_column (PyBool true) (start + Z.of_nat (j * 3)),
             train_column None (start + Z.of_nat (j * 3))))
        <$> seq 0 (months / 3).
Proof.
  apply (term_start_columns cohort_demgeo cohort_behavior trimestral (Some 2%Z) true
           (PyBool true) None cohort_out cohort_selected cohort_joined 3 jan (jan + 5)
           (Customer 7 (Timestamp jan 4) None [])).
  - vm_compute; reflexivity.
  - vm_compute; reflexivity.
  - vm_compute; reflexivity.
  - vm_compute; reflexivity.
  - vm_compute; reflexivity.
  - vm_compute; reflexivity.
  - apply (bool_decide_unpack _). vm_compute. exact I.
  - left.
  - vm_compute. discriminate.
Defined.

(** ** Order and identity of the returned rows *)

Lemma fmap_bind_comm {A B C : Type} (f : B → C) (g : A → list B) (l : list A) :
  f <$> (l ≫= g) = l ≫= λ x, f <$> g x.
Proof.
  induction l as [|x l IH]; [done|]. by rewrite !bind_cons, fmap_app, IH.
Qed.

Lemma StronglySorted_bind_keyed {B : Type} (key : B → Z) (h : Z → list B)
    (keys : list Z) :
  StronglySorted Z.le keys → (∀ i x, x ∈ h i → key x = i) →
  StronglySorted Z.le (key <$> (keys ≫= h)).
Proof.
  intros Hs Hkey. induction Hs as [|i keys Hs IH Hall]; [constructor|].
  rewrite bind_cons, fmap_app. apply StronglySorted_app_2; [| |done].
  - intros x1 x2 (y1 & -> & Hy1)%list_elem_of_fmap (y2 & -> & Hy2)%list_elem_of_fmap.
    rewrite (Hkey i y1 Hy1).
    apply list_elem_of_bind in Hy2 as (k & Hy2 & Hk).
    rewrite (Hkey k y2 Hy2). by apply (proj1 (Forall_forall _ _) Hall).
  - replace (key <$> h i) with (replicate (length (h i)) i);
      [apply StronglySorted_replicate|].
    apply replicate_as_Forall. split; [by rewrite length_fmap|].
    apply Forall_fmap, Forall_forall. intros y Hy. simpl. symmetry. by apply Hkey.
Qed.

(** A returned table is ordered by client id; its clients belong to the
    cohort; no two rows share the pair (client, term index), which is the
    row identity. *)
Theorem table_order (demgeo_df : demgeo) (behavior_df : list event)
    (filter_rows : option (dict string)) (rolling_window : option Z)
    (include_term : bool) (include_month : pyflag)
    (split_by_date : option timestamp)
    (out : list term_row) (rows : list customer) :
  process_behavior demgeo_df behavior_df filter_rows rolling_window
                   include_term include_month split_by_date = inr out →
  cohort_rows demgeo_df filter_rows = inr rows →
  StronglySorted Z.le (o_client <$> out)
  ∧ (∀ r, r ∈ out → o_client r ∈ client_ids rows)
  ∧ NoDup ((λ r, (o_client r, o_term_index r)) <$> out).
Proof.
  intros Hrun Hrows.
  pose proof Hrun as (_ & rows' & joined & term & w & Hrows' & Hjoined & Hterm & Hw & Hout)
    %process_behavior_inv.
  rewrite Hrows in Hrows'. injection Hrows' as <-.
  pose proof (lookup_term_pos _ _ Hterm) as Hpos.
  pose proof Hjoined as (grid & _ & Hj)%joined_frame_inv.
  rewrite Hj in Hout. unfold active_frame in Hout.
  rewrite <-list_fmap_compose, list_fmap_bind in Hout.
  unfold compose in Hout. cbn [fst snd] in Hout.
  set (keys := sorted_unique (ev_client <$> augmented_behavior rows behavior_df))
    in Hout.
  split; [|split].
  - rewrite Hout. apply StronglySorted_bind_keyed.
    + apply Sorted_StronglySorted; [apply _|apply Sorted_sorted_unique].
    + intros i r Hr. by apply pivot_client in Hr.
  - intros r Hr. rewrite Hout in Hr.
    apply list_elem_of_bind in Hr as (i & Hr & Hi).
    apply pivot_client in Hr. rewrite Hr.
    by apply elem_of_sorted_unique, augmented_ids in Hi.
  - rewrite Hout, fmap_bind_comm. apply NoDup_bind.
    + intros i1 i2 [k t] _ _ (r1 & Heq1 & Hr1)%list_elem_of_fmap
        (r2 & Heq2 & Hr2)%list_elem_of_fmap.
      apply pivot_client in Hr1. apply pivot_client in Hr2.
      injection Heq1 as -> _. injection Heq2 as Heq2 _. congruence.
    + intros i _. apply (NoDup_fmap_1 snd). rewrite <-list_fmap_compose.
      unfold compose. cbn [snd].
      change (NoDup (o_term_index <$>
                pivot include_term include_month split_by_date i
                  (segment term w (active_periods
                     (joined_block rows grid (augmented_behavior rows behavior_df) i))))).
      rewrite (customer_rows_index include_term include_month split_by_date i
                 term w _ Hpos).
      apply NoDup_fmap_2; [apply _|apply NoDup_seq].
    + apply NoDup_sorted_unique.
Qed.

Lemma table_order_witness :
  StronglySorted Z.le (o_client <$> cohort_out)
  ∧ (∀ r, r ∈ cohort_out → o_client r ∈ client_ids cohort_selected)
  ∧ NoDup ((λ r, (o_client r, o_term_index r)) <$> cohort_out).
Proof.
  apply (table_order cohort_demgeo cohort_behavior trimestral (Some 2%Z) true
           (PyBool true) None cohort_out cohort_selected);
    vm_compute; reflexivity.
Defined.

(** ** What the result reads of the behaviour table *)

Lemma sum_Z_Permutation (l k : list Z) : l ≡ₚ k → sum_Z l = sum_Z k.
Proof.
  induction 1 as [|x l k _ IH|x y l|l k m _ IH1 _ IH2]; unfold sum_Z in *; simpl; lia.
Qed.

Lemma monthly_sums_Permutation (evs evs' : list event) :
  evs ≡ₚ evs' → monthly_sums evs = monthly_sums evs'.
Proof.
  intros Hp. unfold monthly_sums.
  rewrite (sorted_unique_ext (event_month <$> evs) (event_month <$> evs'))
    by (intros m; by rewrite Hp).
  apply list_fmap_ext. intros _ m _. f_equal.
  rewrite !sum_int64_spec. f_equal. apply sum_Z_Permutation. by rewrite Hp.
Qed.

Lemma groupby_sum_Permutation (b b' : list event) :
  b ≡ₚ b' → groupby_sum b = groupby_sum b'.
Proof.
  intros Hp. unfold groupby_sum.
  rewrite (sorted_unique_ext (ev_client <$> b) (ev_client <$> b'))
    by (intros i; by rewrite Hp).
  apply list_fmap_ext. intros _ i _. f_equal.
  apply monthly_sums_Permutation. by rewrite Hp.
Qed.

Lemma ids_no_behavior_ext (rows : list customer) (b b' : list event) :
  (∀ i, i ∈ ev_client <$> b ↔ i ∈ ev_client <$> b') →
  ids_no_behavior rows b = ids_no_behavior rows b'.
Proof.
  intros Hids. unfold ids_no_behavior. f_equal.
  apply list_filter_iff. intros c. by rewrite !list_elem_of_difference, Hids.
Qed.

Lemma augmented_Permutation (rows : list customer) (b b' : list event) :
  restrict_behavior rows b ≡ₚ restrict_behavior rows b' →
  augmented_behavior rows b ≡ₚ augmented_behavior rows b'.
Proof.
  intros Hp. unfold augmented_behavior.
  rewrite (ids_no_behavior_ext rows (restrict_behavior rows b)
             (restrict_behavior rows b')) by (intros i; by rewrite Hp).
  by rewrite Hp.
Qed.

Lemma joined_frame_Permutation (rows : list customer) (b b' : list event) :
  restrict_behavior rows b ≡ₚ restrict_behavior rows b' →
  joined_frame rows b = joined_frame rows b'.
Proof.
  intros Hp%augmented_Permutation%groupby_sum_Permutation.
  unfold joined_frame, periodized, period_grid, min_date, max_date.
  by rewrite Hp.
Qed.

(** The result reads the behaviour table only through the events of the
    cohort's clients, whatever their order: two tables whose events of cohort
    clients are the same up to reordering give the same result, so events of
    clients outside the cohort and the order of the rows change nothing. *)
Theorem behavior_relevance (demgeo_df : demgeo) (b b' : list event)
    (filter_rows : option (dict string)) (rolling_window : option Z)
    (include_term : bool) (include_month : pyflag)
    (split_by_date : option timestamp) (rows : list customer) :
  cohort_rows demgeo_df filter_rows = inr rows →
  restrict_behavior rows b ≡ₚ restrict_behavior rows b' →
  process_behavior demgeo_df b filter_rows rolling_window
                   include_term include_month split_by_date
  = process_behavior demgeo_df b' filter_rows rolling_window
                     include_term include_month split_by_date.
Proof.
  intros Hrows Hp. unfold process_behavior, transform.
  rewrite Hrows. simpl. by rewrite (joined_frame_Permutation rows b b').
Qed.

Lemma behavior_relevance_witness :
  process_behavior cohort_demgeo cohort_behavior trimestral (Some 2%Z) true
                   (PyBool true) None
  = process_behavior cohort_demgeo
      (reverse (filter (λ e, ev_client e ≠ 99%Z) cohort_behavior))
      trimestral (Some 2%Z) true (PyBool true) None.
Proof.
  apply (behavior_relevance _ _ _ _ _ _ _ _ cohort_selected).
  - vm_compute. reflexivity.
  - replace (restrict_behavior cohort_selected
               (reverse (filter (λ e, ev_client e ≠ 99%Z) cohort_behavior)))
      with (reverse (restrict_behavior cohort_selected cohort_behavior))
      by (vm_compute; reflexivity).
    symmetry. apply reverse_Permutation.
Defined.

(** ** The rolling column and its difference form *)





